(** * The concurrent benchmark driver of the multi-adapter hosting notebook

    Source: [sagemaker/01_multi_adapter_hosting_sagemaker_lorax/
    multi_adapter_hosting_sagemaker.ipynb], the cell that defines
    [adapter_counters], [counters_lock], [invoke_adapter] and
    [benchmark_scenario].

    The driver is modelled as an interleaving transition system.  Every
    worker thread runs [invoke_adapter]; its control points are the places
    where another thread may be scheduled.  The shared store holds the two
    module-level counters, the lock, and the list objects that the main
    thread keeps in [all_latencies] and hands to the workers (each worker
    mutates the very object the main thread later reads).

    Python integers are [Z].  Python numbers that come from the clock are an
    abstract type [num] with the operations the source applies to them; no
    law is assumed about them, so every statement holds for floating point
    arithmetic as it is. *)

From Stdlib Require Import ZArith QArith Lia.
From stdpp Require Import base option list.

Set Default Proof Using "Type".

(** ** The shared counters and the body of the [with counters_lock] block *)

(** [enumerate(xs)]: the elements paired with their positions. *)
Fixpoint enumerate_from {A : Type} (i : nat) (l : list A) : list (nat * A) :=
  match l with
  | [] => []
  | x :: l' => (i, x) :: enumerate_from (S i) l'
  end.

Definition enumerate {A : Type} (l : list A) : list (nat * A) :=
  enumerate_from 0 l.

(** [[i for i, count in enumerate(adapter_counters) if count > 0]] *)
Definition remaining_adapters (counters : list Z) : list nat :=
  map fst (List.filter (fun p => (0 <? snd p)%Z) (enumerate counters)).

(** What one pass through the block under the lock does: it either reserves
    one request for an adapter or leaves the loop. *)
Inductive claimed : Type :=
  | Took (adapter_id : nat)
  | Break.

(** The block under [with counters_lock].  [choice] is the position that
    [random.choice] draws in [remaining_adapters]; a position outside the
    list is no draw at all, hence [None].  The result carries the new values
    of [total_requests] and [adapter_counters]. *)
Definition with_body (single_adapter : bool) (choice : nat)
    (requests : Z) (counters : list Z) : option (claimed * Z * list Z) :=
  if single_adapter then
    let adapter_id := 1 in
    if (0 <? requests)%Z
    then Some (Took adapter_id, (requests - 1)%Z, counters)
    else Some (Break, requests, counters)
  else
    let remaining := remaining_adapters counters in
    match remaining with
    | [] => Some (Break, requests, counters)
    | _ :: _ =>
        i ← remaining !! choice;
        let adapter_id := i + 1 in
        Some (Took adapter_id, requests,
              alter (fun count => (count - 1)%Z) (adapter_id - 1) counters)
    end.

(** ** Worker threads *)

(** Control points of [invoke_adapter]. *)
Inductive point : Type :=
  | AtWith                       (* top of [while True], before the lock is taken *)
  | InBody                       (* lock held, block not yet run *)
  | AtExit (adapter_id : nat)    (* block done, lock still held *)
  | AtBreak                      (* [break] taken, lock still held *)
  | AtPredict (adapter_id : nat) (* lock released, request in flight *)
  | AtExtend                     (* after the loop, before [extend] *)
  | Returned                     (* [invoke_adapter] returned *)
  | Died.                        (* ended by the exception of [predict] *)

(** What a scheduled thread does next.  The draw of [random.choice] and the
    behaviour of [lorax_predictor.predict] are inputs of the model. *)
Inductive action {num response : Type} : Type :=
  | Acquire
  | Body (choice : nat)
  | Release
  | Returns (r : response) (start_time stop_time : num)
  | Raises
  | Extend.
Arguments action : clear implicits.

Section Driver.
Context {num response : Type}.
(** Python's [-] on clock readings. *)
Variable sub : num -> num -> num.

Record worker : Type := Worker {
  pc : point;
  latencies : list num
}.

Record state : Type := State {
  total_requests : Z;
  adapter_counters : list Z;
  counters_lock : option nat;
  workers : list worker;
  (* [all_latencies[t]] is the object that thread [t] knows as
     [aggregate_latency] *)
  all_latencies : list (list num)
}.

Definition label : Type := nat * action num response.

Definition goto (s : state) (t : nat) (w : worker) : state :=
  State (total_requests s) (adapter_counters s) (counters_lock s)
        (<[t := w]> (workers s)) (all_latencies s).

Definition set_lock (o : option nat) (s : state) : state :=
  State (total_requests s) (adapter_counters s) o
        (workers s) (all_latencies s).

Definition set_counters (requests : Z) (counters : list Z) (s : state) : state :=
  State requests counters (counters_lock s) (workers s) (all_latencies s).

Definition extend (t : nat) (l : list num) (s : state) : state :=
  State (total_requests s) (adapter_counters s) (counters_lock s)
        (workers s) (alter (fun aggregate_latency => aggregate_latency ++ l) t (all_latencies s)).

(** [invoke_adapter] as run by thread [t], one step at a time: [w] holds
    where the thread is in the function and its local [latencies].  The
    result is [None] when the thread cannot take that step in [s] (it does
    not exist, it is elsewhere in its code, or the lock it waits for is
    held).  Otherwise the step yields the adapter it reserved, if any, and
    the next state. *)
Definition invoke_adapter (single_adapter : bool) (l : label) (s : state)
    : option (option nat * state) :=
  let '(t, a) := l in
  w ← workers s !! t;
  match pc w, a with
  | AtWith, Acquire =>
      match counters_lock s with
      | None => Some (None, goto (set_lock (Some t) s) t (Worker InBody (latencies w)))
      | Some _ => None
      end
  | InBody, Body choice =>
      '(c, requests, counters) ←
        with_body single_adapter choice (total_requests s) (adapter_counters s);
      match c with
      | Took adapter_id =>
          Some (Some adapter_id,
                goto (set_counters requests counters s) t
                     (Worker (AtExit adapter_id) (latencies w)))
      | Break =>
          Some (None,
                goto (set_counters requests counters s) t
                     (Worker AtBreak (latencies w)))
      end
  | AtExit adapter_id, Release =>
      Some (None, goto (set_lock None s) t (Worker (AtPredict adapter_id) (latencies w)))
  | AtBreak, Release =>
      Some (None, goto (set_lock None s) t (Worker AtExtend (latencies w)))
  | AtPredict _, Returns _ start_time stop_time =>
      let latency := sub stop_time start_time in
      Some (None, goto s t (Worker AtWith (latencies w ++ [latency])))
  | AtPredict _, Raises =>
      Some (None, goto s t (Worker Died (latencies w)))
  | AtExtend, Extend =>
      Some (None, goto (extend t (latencies w) s) t (Worker Returned (latencies w)))
  | _, _ => None
  end.

(** A schedule is run from left to right; the result collects, in order,
    the adapters that were reserved. *)
Fixpoint run (single_adapter : bool) (ls : list label) (s : state)
    : option (list nat * state) :=
  match ls with
  | [] => Some ([], s)
  | l :: ls' =>
      '(c, s1) ← invoke_adapter single_adapter l s;
      '(cs, s2) ← run single_adapter ls' s1;
      Some (option_list c ++ cs, s2)
  end.

(** The threads that [benchmark_scenario] creates: [range(num_threads)]
    workers, each with its own empty list.  A thread that was not started
    yet behaves like one that was not scheduled yet, so all of them are
    present from the beginning. *)
Definition spawn (num_threads : Z) (requests : Z) (counters : list Z) : state :=
  State requests counters None
        (replicate (Z.to_nat num_threads) (Worker AtWith []))
        (replicate (Z.to_nat num_threads) []).

(** The module-level configuration: [adapter_counters =
    [total_requests // num_adapters] * num_adapters].  Python raises on a
    zero divisor and repeats a list a negative number of times to []. *)
Definition configure (requests num_adapters : Z) : option (Z * list Z) :=
  if (num_adapters =? 0)%Z then None
  else Some (requests, replicate (Z.to_nat num_adapters) (requests / num_adapters)%Z).

Definition ended (w : worker) : bool :=
  match pc w with
  | Returned | Died => true
  | _ => false
  end.

(** [thread.join()] returns for every thread. *)
Definition joined (s : state) : bool := forallb ended (workers s).

End Driver.

(** ** The main thread: aggregation after the joins *)

(** [sum([len(latencies) for latencies in all_latencies])] *)
Definition total_requests_made {num : Type} (all : list (list num)) : nat :=
  sum_list (length <$> all).

Section Report.
Context {num response : Type}.
(** Python's [-], [+] and [/] on numbers, the number an [int] denotes, and
    the test that decides whether [/] raises. *)
Variables sub add div : num -> num -> num.
Variable of_int : Z -> num.
Variable is_zero : num -> bool.

(** [sum(xs)] starts from the integer 0 and adds from the left. *)
Definition py_sum (xs : list num) : num := fold_left add xs (of_int 0).

(** [sum([sum(latencies) for latencies in all_latencies])] *)
Definition total_latency (all : list (list num)) : num :=
  py_sum (py_sum <$> all).

(** The three values that [benchmark_scenario] prints. *)
Record result : Type := Result {
  total_time : num;
  average_latency : num;
  throughput : num
}.

Inductive report : Type :=
  | Printed (r : result)
  | ZeroDivisionError.

(** The code after the joins.  [now] is the clock when the throughput is
    computed, [now'] the clock when the first line is printed. *)
Definition summarize (all : list (list num)) (start_time now now' : num) : report :=
  let made := total_requests_made all in
  if (made =? 0)%nat then ZeroDivisionError
  else
    let average_latency := div (total_latency all) (of_int (Z.of_nat made)) in
    let elapsed := sub now start_time in
    if is_zero elapsed then ZeroDivisionError
    else
      let throughput := div (of_int (Z.of_nat made)) elapsed in
      Printed (Result (sub now' start_time) average_latency throughput).

(** [benchmark_scenario(single_adapter)] under a schedule of its worker
    threads, started with the shared counters at [requests] and
    [counters].  The result is [None] when the schedule is not a complete
    execution: some step is not enabled, or a thread is still running
    when the schedule ends. *)
Definition benchmark_scenario (single_adapter : bool) (num_threads : Z)
    (schedule : list (@label num response)) (start_time now now' : num)
    (requests : Z) (counters : list Z) : option (report * state) :=
  '(_, s) ← run sub single_adapter schedule (spawn num_threads requests counters);
  if joined s
  then Some (summarize (all_latencies s) start_time now now', s)
  else None.

End Report.

(** ** Notions used to state the properties *)

(** The block guarded by [counters_lock]. *)
Definition in_block (p : point) : bool :=
  match p with
  | InBody | AtExit _ | AtBreak => true
  | _ => false
  end.

(** A reserved request that is not, or not yet, in [latencies]. *)
Definition pending (p : point) : nat :=
  match p with
  | AtExit _ | AtPredict _ | Died => 1
  | _ => 0
  end.

(** A worker that has seen the pool empty. *)
Definition left_loop (p : point) : bool :=
  match p with
  | AtBreak | AtExtend | Returned => true
  | _ => false
  end.

(** The weight of a control point: it drops with every step a worker takes,
    except when the step reserves a request. *)
Definition weight (p : point) : nat :=
  match p with
  | Returned | Died => 0
  | AtExtend => 1
  | AtBreak => 2
  | InBody => 3
  | AtWith => 4
  | AtPredict _ => 5
  | AtExit _ => 6
  end.

(** How often an adapter occurs among the reserved ones. *)
Definition claims_of (adapter_id : nat) (claims : list nat) : nat :=
  count_occ Nat.eq_dec claims adapter_id.

Definition sum_Z (l : list Z) : Z := foldr Z.add 0%Z l.

Section Notions.
Context {num response : Type}.
Variable sub : num -> num -> num.

#[local] Abbreviation state := (@state num).
#[local] Abbreviation worker := (@worker num).
#[local] Abbreviation label := (@label num response).

(** The relational reading of [invoke_adapter] for a thread [t] whose
    record is [w]. *)
Inductive step (single_adapter : bool) (s : state) (t : nat) (w : worker)
    : action num response -> option nat -> state -> Prop :=
  | step_acquire :
      pc w = AtWith -> counters_lock s = None ->
      step single_adapter s t w Acquire None
           (goto (set_lock (Some t) s) t (Worker InBody (latencies w)))
  | step_take choice adapter_id requests counters :
      pc w = InBody ->
      with_body single_adapter choice (total_requests s) (adapter_counters s)
        = Some (Took adapter_id, requests, counters) ->
      step single_adapter s t w (Body choice) (Some adapter_id)
           (goto (set_counters requests counters s) t
                 (Worker (AtExit adapter_id) (latencies w)))
  | step_break choice requests counters :
      pc w = InBody ->
      with_body single_adapter choice (total_requests s) (adapter_counters s)
        = Some (Break, requests, counters) ->
      step single_adapter s t w (Body choice) None
           (goto (set_counters requests counters s) t
                 (Worker AtBreak (latencies w)))
  | step_release_taken adapter_id :
      pc w = AtExit adapter_id ->
      step single_adapter s t w Release None
           (goto (set_lock None s) t (Worker (AtPredict adapter_id) (latencies w)))
  | step_release_break :
      pc w = AtBreak ->
      step single_adapter s t w Release None
           (goto (set_lock None s) t (Worker AtExtend (latencies w)))
  | step_returns adapter_id r start_time stop_time :
      pc w = AtPredict adapter_id ->
      step single_adapter s t w (Returns r start_time stop_time) None
           (goto s t (Worker AtWith (latencies w ++ [sub stop_time start_time])))
  | step_raises adapter_id :
      pc w = AtPredict adapter_id ->
      step single_adapter s t w Raises None
           (goto s t (Worker Died (latencies w)))
  | step_extend :
      pc w = AtExtend ->
      step single_adapter s t w Extend None
           (goto (extend t (latencies w) s) t (Worker Returned (latencies w))).

(** The counters that make up the work pool of a mode. *)
Definition pool (single_adapter : bool) (s : state) : list Z :=
  if single_adapter then [total_requests s] else adapter_counters s.

(** The block under the lock would take [break]. *)
Definition exhausted (single_adapter : bool) (s : state) : bool :=
  if single_adapter then negb (0 <? total_requests s)%Z
  else match remaining_adapters (adapter_counters s) with
       | [] => true
       | _ :: _ => false
       end.

(** No counter, global or per adapter, is negative. *)
Definition nonneg (s : state) : Prop :=
  (0 <= total_requests s)%Z /\ Forall (Z.le 0) (adapter_counters s).

(** Requests that can still be reserved. *)
Definition quota (single_adapter : bool) (s : state) : nat :=
  sum_list_with Z.to_nat (pool single_adapter s).

(** A bound on the number of steps that remain. *)
Definition fuel (single_adapter : bool) (s : state) : nat :=
  4 * quota single_adapter s + sum_list_with (fun w => weight (pc w)) (workers s).

(** Requests a worker has reserved so far. *)
Definition reserved (w : worker) : nat :=
  length (latencies w) + pending (pc w).

(** Requests reserved by workers that died, which never reach
    [all_latencies]. *)
Definition lost (w : worker) : nat :=
  match pc w with
  | Died => reserved w
  | _ => 0
  end.

(** Measurements of a worker that reach [all_latencies]. *)
Definition kept (w : worker) : nat :=
  match pc w with
  | Returned => length (latencies w)
  | _ => 0
  end.

(** Measurements the main thread finds after the joins. *)
Definition recorded (s : state) : nat := total_requests_made (all_latencies s).

Definition raises (l : label) : bool :=
  match snd l with
  | Raises => true
  | _ => false
  end.

(** The lock is held by a thread exactly while it is in the block. *)
Definition lock_inv (s : state) : Prop :=
  (forall t, counters_lock s = Some t -> is_Some (workers s !! t)) /\
  forall t w, workers s !! t = Some w ->
    (in_block (pc w) = true <-> counters_lock s = Some t).

(** The list object of a thread is empty until the thread extends it. *)
Definition store_inv (s : state) : Prop :=
  length (all_latencies s) = length (workers s) /\
  forall t w, workers s !! t = Some w ->
    all_latencies s !! t =
      Some (match pc w with Returned => latencies w | _ => [] end).

(** Only an empty pool lets a worker leave its loop. *)
Definition break_inv (single_adapter : bool) (s : state) : Prop :=
  forall t w, workers s !! t = Some w -> left_loop (pc w) = true ->
    exhausted single_adapter s = true.

End Notions.

(** ** Adapter prefixes, payloads and the warm-up loop *)

From Stdlib Require Import Ascii.
From stdpp Require Import strings pretty gmap.

(** [f'{base_prefix}/{i}'] *)
Definition adapter_path (base_prefix : string) (i : nat) : string :=
  base_prefix +:+ "/" +:+ pretty i.

Definition prompt : string :=
  "[INST] Natalia sold clips to 48 of her friends in April, and then she sold half as many clips in May. How many clips did Natalia sell altogether in April and May? [/INST]".

(** The dictionary sent to the endpoint: ["inputs"] and, under
    ["parameters"], ["max_new_tokens"], ["adapter_id"] and
    ["adapter_source"]. *)
Record payload : Type := Payload {
  payload_inputs : string;
  payload_max_new_tokens : Z;
  payload_adapter_id : option string;
  payload_adapter_source : option string
}.

(** [payload_adapter] as the warm-up loop and [invoke_adapter] build it. *)
Definition payload_adapter (base_prefix : string) (i : nat) : payload :=
  Payload prompt 64 (Some (adapter_path base_prefix i)) (Some "s3").

(** [for i in range(1, n_adapters+1): ... print(lorax_predictor.predict(payload_adapter))].
    [outcome i] is what [predict] does when called for adapter [i]: it
    returns a response or raises.  The result lists the payloads sent and
    the responses printed, and tells whether the loop ran to its end. *)
Fixpoint warm_up_loop {response : Type} (outcome : nat -> option response)
    (base_prefix : string) (ids : list nat) : list payload * list response * bool :=
  match ids with
  | [] => ([], [], true)
  | i :: ids' =>
      let payload_adapter := payload_adapter base_prefix i in
      match outcome i with
      | None => ([payload_adapter], [], false)
      | Some r =>
          let '(sent, printed, finished) := warm_up_loop outcome base_prefix ids' in
          (payload_adapter :: sent, r :: printed, finished)
      end
  end.

Definition warm_up {response : Type} (outcome : nat -> option response)
    (base_prefix : string) (n_adapters : nat) : list payload * list response * bool :=
  warm_up_loop outcome base_prefix (seq 1 n_adapters).

(** ** Copying the adapter folder to S3 *)

(** [os.path.join(a, b)] on POSIX paths. *)
Definition starts_with_slash (b : string) : bool :=
  match b with
  | String c _ => Ascii.eqb c "/"%char
  | EmptyString => false
  end.

Fixpoint ends_with_slash (a : string) : bool :=
  match a with
  | EmptyString => false
  | String c EmptyString => Ascii.eqb c "/"%char
  | String _ a' => ends_with_slash a'
  end.

Definition path_join (a b : string) : string :=
  if starts_with_slash b then b
  else if String.eqb a "" || ends_with_slash a then a +:+ b
  else a +:+ "/" +:+ b.

(** ["/".join(components)] *)
Fixpoint join_slash (components : list string) : string :=
  match components with
  | [] => ""
  | [c] => c
  | c :: rest => c +:+ "/" +:+ join_slash rest
  end.

(** A file or directory name: not empty and without a slash. *)
Fixpoint slash_free (s : string) : bool :=
  match s with
  | EmptyString => true
  | String c s' => negb (Ascii.eqb c "/"%char) && slash_free s'
  end.

Definition name_ok (name : string) : bool :=
  negb (String.eqb name "") && slash_free name.

Section Upload.
(** What a file holds. *)
Context {data : Type}.
(** The content of the file found below [local_path] under the given
    directory names and file name. *)
Variable read : list string -> data.

(** One triple [(root, dirs, files)] of [os.walk(local_path)]; [root] is
    given by the directory names that lead from [local_path] to it. *)
Definition walked : Type := list string * list string * list string.

(** The objects of S3, by bucket and key. *)
#[local] Abbreviation objects := (gmap (string * string) data).

(** [os.path.relpath(os.path.join(root, file), local_path)] for a [root]
    that [os.walk(local_path)] yields. *)
Definition relpath (root : list string) (file : string) : string :=
  join_slash (root ++ [file]).

(** [s3.upload_file(local_file_path, s3_bucket, s3_object_key)] *)
Definition upload_file (local_file_path : list string)
    (s3_bucket s3_object_key : string) (s3 : objects) : objects :=
  <[(s3_bucket, s3_object_key) := read local_file_path]> s3.

(** [upload_folder_to_s3(local_path, s3_bucket, s3_prefix)]; the folder
    [local_path] is given by the triples that [os.walk(local_path)] yields,
    in their order. *)
Definition upload_folder_to_s3 (local_path : list walked)
    (s3_bucket s3_prefix : string) (s3 : objects) : objects :=
  foldl (fun s3 '(root, dirs, files) =>
           foldl (fun s3 file =>
                    let local_file_path := root ++ [file] in
                    let s3_object_key := path_join s3_prefix (relpath root file) in
                    upload_file local_file_path s3_bucket s3_object_key s3)
                 s3 files)
        s3 local_path.

(** [for i in range(1, n_adapters+1): upload_folder_to_s3(model_dir,
    sagemaker_session_bucket, f'{base_prefix}/{i}')] *)
Definition upload_adapters (model_dir : list walked)
    (sagemaker_session_bucket base_prefix : string) (n_adapters : nat)
    (s3 : objects) : objects :=
  foldl (fun s3 i =>
           upload_folder_to_s3 model_dir sagemaker_session_bucket
             (adapter_path base_prefix i) s3)
        s3 (seq 1 n_adapters).

(** The files of a walk, each with the directory names above it. *)
Definition walked_files (local_path : list walked) : list (list string * string) :=
  concat (map (fun '(root, dirs, files) => map (fun file => (root, file)) files)
              local_path).

(** The object that the upload of one file writes. *)
Definition uploaded (s3_bucket s3_prefix : string) (f : list string * string)
    : (string * string) * data :=
  ((s3_bucket, path_join s3_prefix (relpath (fst f) (snd f))),
   read (fst f ++ [snd f])).

Definition names_ok (local_path : list walked) : Prop :=
  Forall (fun '(root, file) => Forall (fun name => name_ok name = true) (root ++ [file]))
         (walked_files local_path).

End Upload.

(** ** Printing the predicted classes (second notebook)

    [do_inference] and [process_async_response] end with
    [print('Predicted: ', ' '.join('%4s' % classes[predicted[j]] for j in range(4)))].
    [predicted] is the list of column indices that [torch.max(..., 1)]
    returns, one per row of the response; [classes] comes from
    [utils_cifar].  Both are inputs here. *)

Fixpoint spaces (n : nat) : string :=
  match n with
  | 0 => ""
  | S n' => String " " (spaces n')
  end.

(** ['%4s' % name] *)
Definition format_4s (name : string) : string :=
  spaces (4 - String.length name) +:+ name.

(** [' '.join(parts)] *)
Fixpoint join_space (parts : list string) : string :=
  match parts with
  | [] => ""
  | [p] => p
  | p :: rest => p +:+ " " +:+ join_space rest
  end.

(** The line printed, or [None] for the [IndexError] of [predicted[j]] or of
    [classes[...]]. *)
Definition process_async_response (classes : list string) (predicted : list nat)
    : option string :=
  names ← mapM (fun j => i ← predicted !! j; classes !! i) (seq 0 4);
  Some ("Predicted: " +:+ " " +:+ join_space (format_4s <$> names)).

(** ** The two calls at the end of the cell

    [benchmark_scenario(single_adapter=True)] and then [benchmark_scenario()],
    on the same module-level counters: the second call starts from what the
    first one left.  An exception of the first call ends the cell. *)

Section Script.
Context {num response : Type}.
Variables sub add div : num -> num -> num.
Variable of_int : Z -> num.
Variable is_zero : num -> bool.

Definition run_benchmarks (num_threads : Z)
    (schedule : list (@label num response)) (start_time now now' : num)
    (schedule2 : list (@label num response)) (start_time2 now2 now2' : num)
    (requests : Z) (counters : list Z)
    : option (@report num * @state num * option (@report num * @state num)) :=
  '(rep, s) ← benchmark_scenario sub add div of_int is_zero true num_threads
                schedule start_time now now' requests counters;
  match rep with
  | ZeroDivisionError => Some (rep, s, None)
  | Printed _ =>
      '(rep2, s2) ← benchmark_scenario sub add div of_int is_zero false num_threads
                      schedule2 start_time2 now2 now2'
                      (total_requests s) (adapter_counters s);
      Some (rep, s, Some (rep2, s2))
  end.

End Script.

(** ** Concrete runs

    Clock readings are rationals and a response is a success flag.  The
    notebook's numbers (300 requests, 50 adapters, 20 threads) are scaled
    down. *)

Abbreviation scenario_Q :=
  (@benchmark_scenario Q bool Qminus Qplus Qdiv inject_Z (fun q => Qeq_bool q 0)).

(** Two workers share a budget of two requests in single-adapter mode; the
    second response is not a success. *)
Definition quiet_schedule : list (@label Q bool) :=
  [ (0, Acquire); (0, Body 0); (0, Release);
    (1, Acquire); (1, Body 0); (1, Release);
    (0, Returns true 1%Q 3%Q); (1, Returns false 2%Q 7%Q);
    (0, Acquire); (0, Body 0); (0, Release); (0, Extend);
    (1, Acquire); (1, Body 0); (1, Release); (1, Extend) ].

(** Worker 0 has a request in flight while worker 1 is inside the block. *)
Definition overlap_schedule : list (@label Q bool) :=
  [ (0, Acquire); (0, Body 0); (0, Release); (1, Acquire) ].

(** Two workers and two adapters with a budget of three in multi-adapter
    mode: one request per adapter, the third one is never issued. *)
Definition multi_schedule : list (@label Q bool) :=
  [ (0, Acquire); (0, Body 1); (0, Release);
    (1, Acquire); (1, Body 0); (1, Release);
    (0, Returns true 1%Q 3%Q); (1, Returns true 2%Q 7%Q);
    (0, Acquire); (0, Body 0); (0, Release); (0, Extend);
    (1, Acquire); (1, Body 0); (1, Release); (1, Extend) ].

(** The only worker reserves a request and [predict] raises. *)
Definition crash_schedule : list (@label Q bool) :=
  [ (0, Acquire); (0, Body 0); (0, Release); (0, Raises) ].

(** Worker 0 measures one request and leaves normally; the request of
    worker 1 raises. *)
Definition mixed_schedule : list (@label Q bool) :=
  [ (0, Acquire); (0, Body 0); (0, Release); (0, Returns true 1%Q 3%Q);
    (1, Acquire); (1, Body 0); (1, Release); (1, Raises);
    (0, Acquire); (0, Body 0); (0, Release); (0, Extend) ].

(** The only worker has measured one request and has a second in flight. *)
Definition second_request_schedule : list (@label Q bool) :=
  [ (0, Acquire); (0, Body 0); (0, Release); (0, Returns true 1%Q 3%Q);
    (0, Acquire); (0, Body 0); (0, Release) ].

(** Both workers find nothing to do. *)
Definition idle_schedule : list (@label Q bool) :=
  [ (0, Acquire); (0, Body 0); (0, Release); (0, Extend);
    (1, Acquire); (1, Body 0); (1, Release); (1, Extend) ].

(** The reserved adapters and the last state of a schedule. *)
Definition outcome (single_adapter : bool) (ls : list (@label Q bool))
    (s : @state Q) : list nat * @state Q :=
  default ([], s) (run Qminus single_adapter ls s).

Definition overlap_final : @state Q :=
  Eval vm_compute in snd (outcome true overlap_schedule (spawn 2 2 [2%Z])).

Definition quiet_claims : list nat :=
  Eval vm_compute in fst (outcome true quiet_schedule (spawn 2 2 [2%Z])).
Definition quiet_final : @state Q :=
  Eval vm_compute in snd (outcome true quiet_schedule (spawn 2 2 [2%Z])).

Definition multi_claims : list nat :=
  Eval vm_compute in fst (outcome false multi_schedule (spawn 2 3 [1%Z; 1%Z])).
Definition multi_final : @state Q :=
  Eval vm_compute in snd (outcome false multi_schedule (spawn 2 3 [1%Z; 1%Z])).

Definition crash_claims : list nat :=
  Eval vm_compute in fst (outcome false crash_schedule (spawn 1 2 [2%Z])).
Definition crash_final : @state Q :=
  Eval vm_compute in snd (outcome false crash_schedule (spawn 1 2 [2%Z])).

Definition crash_single_final : @state Q :=
  Eval vm_compute in snd (outcome true crash_schedule (spawn 1 1 [1%Z])).

Definition mixed_claims : list nat :=
  Eval vm_compute in fst (outcome true mixed_schedule (spawn 2 2 [2%Z])).
Definition mixed_final : @state Q :=
  Eval vm_compute in snd (outcome true mixed_schedule (spawn 2 2 [2%Z])).

Definition second_request_final : @state Q :=
  Eval vm_compute in snd (outcome true second_request_schedule (spawn 1 2 [2%Z])).

Definition idle_final : @state Q :=
  Eval vm_compute in snd (outcome false idle_schedule (spawn 2 0 [0%Z; 0%Z])).

Definition idle_single_final : @state Q :=
  Eval vm_compute in snd (outcome true idle_schedule (spawn 2 0 [0%Z])).

(** An adapter folder with one subdirectory; a file holds its own path. *)
Definition adapter_folder : list walked :=
  [ ([], ["checkpoint"], ["adapter_config.json"; "adapter_model.bin"]);
    (["checkpoint"], [], ["README.md"]) ].

(** [predict] answers every warm-up call, or raises on the third. *)
Definition all_respond : nat -> option bool := fun _ => Some true.
Definition third_raises : nat -> option bool :=
  fun i => if (i =? 3)%nat then None else Some true.

(** The step of worker 1 that reserves the second request. *)
Definition overlap_next : @state Q :=
  Eval vm_compute in snd (outcome true [(1, Body 0)] overlap_final).

(** A budget of one request for two adapters. *)
Definition small_budget_final : @state Q :=
  Eval vm_compute in snd (outcome false idle_schedule (spawn 2 1 [0%Z; 0%Z])).

(** A second single-adapter run on the counters that the first one left. *)
Definition rerun_final : @state Q :=
  Eval vm_compute in snd (outcome true idle_schedule (spawn 2 0 [2%Z])).

(** The multi-adapter run that follows the single-adapter run. *)
Definition second_final : @state Q :=
  Eval vm_compute in snd (outcome false quiet_schedule (spawn 2 0 [2%Z])).

(** * Properties *)

(** ** Lists of counters *)

Lemma sum_list_with_insert {A : Type} (f : A -> nat) (l : list A) (i : nat) (x y : A) :
  l !! i = Some x ->
  sum_list_with f (<[i := y]> l) + f x = sum_list_with f l + f y.
Proof.
  revert i. induction l as [|a l IH]; intros [|i] Hi; simplify_eq/=.
  - lia.
  - specialize (IH _ Hi). lia.
Qed.

Lemma sum_list_with_pointwise {A : Type} (f g h : A -> nat) (l : list A) :
  Forall (fun x => f x + g x = h x) l ->
  sum_list_with f l + sum_list_with g l = sum_list_with h l.
Proof. induction 1; simpl; lia. Qed.

Lemma sum_list_with_zero {A : Type} (f : A -> nat) (l : list A) :
  sum_list_with f l = 0 <-> Forall (fun x => f x = 0) l.
Proof.
  induction l as [|a l IH]; simpl.
  - split; auto.
  - rewrite Forall_cons, <- IH. lia.
Qed.

Lemma sum_Z_alter_pred (l : list Z) (i : nat) (c : Z) :
  l !! i = Some c ->
  sum_Z (alter (fun count => (count - 1)%Z) i l) = (sum_Z l - 1)%Z.
Proof.
  revert i. induction l as [|a l IH]; intros [|i] Hi; simplify_eq/=.
  - lia.
  - rewrite (IH _ Hi). lia.
Qed.

Lemma to_nat_alter_pred (l : list Z) (i : nat) (c : Z) :
  l !! i = Some c -> (0 < c)%Z ->
  sum_list_with Z.to_nat (alter (fun count => (count - 1)%Z) i l) + 1
  = sum_list_with Z.to_nat l.
Proof.
  revert i. induction l as [|a l IH]; intros [|i] Hi Hc; simplify_eq/=.
  - lia.
  - specialize (IH _ Hi Hc). lia.
Qed.

Lemma sum_Z_nonneg (l : list Z) : Forall (Z.le 0) l -> (0 <= sum_Z l)%Z.
Proof. induction 1; simpl; lia. Qed.

Lemma sum_Z_replicate (n : nat) (x : Z) :
  sum_Z (replicate n x) = (Z.of_nat n * x)%Z.
Proof. induction n as [|n IH]; simpl; [lia|]. rewrite IH. lia. Qed.

(** ** The adapters that still need to be called *)

Lemma elem_of_enumerate_from {A : Type} (k i : nat) (x : A) (l : list A) :
  (i, x) ∈ enumerate_from k l <-> k <= i /\ l !! (i - k) = Some x.
Proof.
  revert k. induction l as [|a l IH]; intros k; simpl.
  - rewrite elem_of_nil. split; [done|]. intros [_ Hl]. by rewrite lookup_nil in Hl.
  - rewrite elem_of_cons, IH. split.
    + intros [Heq | [Hle Hl]].
      * simplify_eq. split; [lia|]. by rewrite Nat.sub_diag.
      * split; [lia|]. by replace (i - k) with (S (i - S k)) by lia.
    + intros [Hle Hl]. destruct (decide (i = k)) as [->|Hne].
      * left. rewrite Nat.sub_diag in Hl. by simplify_eq/=.
      * right. split; [lia|].
        by replace (i - k) with (S (i - S k)) in Hl by lia.
Qed.

Lemma elem_of_remaining_adapters (i : nat) (counters : list Z) :
  i ∈ remaining_adapters counters <->
  exists count, counters !! i = Some count /\ (0 < count)%Z.
Proof.
  unfold remaining_adapters, enumerate.
  rewrite list_elem_of_In, in_map_iff. split.
  - intros ([j c] & <- & Hin). apply filter_In in Hin as [Hin Hpos].
    apply list_elem_of_In, elem_of_enumerate_from in Hin as [_ Hl].
    rewrite Nat.sub_0_r in Hl. exists c. split; [done|]. simpl in Hpos. lia.
  - intros (c & Hl & Hpos). exists (i, c). split; [done|].
    apply filter_In. split.
    + apply list_elem_of_In, elem_of_enumerate_from.
      rewrite Nat.sub_0_r. split; [lia|done].
    + simpl. lia.
Qed.

Lemma remaining_adapters_nil (counters : list Z) :
  remaining_adapters counters = [] <-> Forall (fun count => (count <= 0)%Z) counters.
Proof.
  rewrite Forall_lookup. split.
  - intros Hnil i c Hi. destruct (decide (0 < c)%Z) as [Hpos|]; [|lia].
    assert (i ∈ remaining_adapters counters) as Hin
      by (apply elem_of_remaining_adapters; eauto).
    rewrite Hnil in Hin. by apply elem_of_nil in Hin.
  - intros Hall. destruct (remaining_adapters counters) as [|i l] eqn:Hrem; [done|].
    assert (i ∈ remaining_adapters counters) as Hin by (rewrite Hrem; left).
    apply elem_of_remaining_adapters in Hin as (c & Hi & Hpos).
    specialize (Hall _ _ Hi). simpl in Hall. lia.
Qed.

(** ** The block under the lock *)

Lemma with_body_single (choice : nat) (requests : Z) (counters : list Z) :
  with_body true choice requests counters
  = if (0 <? requests)%Z then Some (Took 1, (requests - 1)%Z, counters)
    else Some (Break, requests, counters).
Proof. reflexivity. Qed.

Lemma with_body_multi_take (choice adapter_id : nat) (requests requests' : Z)
    (counters counters' : list Z) :
  with_body false choice requests counters = Some (Took adapter_id, requests', counters') ->
  requests' = requests /\
  exists i count, adapter_id = i + 1 /\ counters !! i = Some count /\ (0 < count)%Z /\
    counters' = alter (fun count => (count - 1)%Z) i counters.
Proof.
  unfold with_body. destruct (remaining_adapters counters) as [|j l] eqn:Hrem; [done|].
  rewrite <- Hrem. intros Hb.
  destruct (remaining_adapters counters !! choice) as [i|] eqn:Hi; simplify_eq/=.
  split; [done|].
  assert (i ∈ remaining_adapters counters) as Hin
    by (apply list_elem_of_lookup; eauto).
  apply elem_of_remaining_adapters in Hin as (c & Hc & Hpos).
  exists i, c. replace (i + 1 - 1) with i by lia. done.
Qed.

Lemma with_body_multi_break (choice : nat) (requests requests' : Z)
    (counters counters' : list Z) :
  with_body false choice requests counters = Some (Break, requests', counters') ->
  requests' = requests /\ counters' = counters /\ remaining_adapters counters = [].
Proof.
  unfold with_body. destruct (remaining_adapters counters) as [|j l] eqn:Hrem.
  - by intros [= <- <-].
  - rewrite <- Hrem. intros Hb.
    destruct (remaining_adapters counters !! choice); simplify_eq/=.
Qed.

(** ** Single steps *)

Section Steps.
Context {num response : Type}.
Variable sub : num -> num -> num.

#[local] Abbreviation state := (@state num).
#[local] Abbreviation worker := (@worker num).
#[local] Abbreviation label := (@label num response).

Implicit Types (s : state) (w : worker) (t : nat) (l : label)
  (a : action num response) (c : option nat) (single_adapter : bool).

Lemma invoke_adapter_step single_adapter t a s c s' :
  invoke_adapter sub single_adapter (t, a) s = Some (c, s') <->
  exists w, workers s !! t = Some w /\ step sub single_adapter s t w a c s'.
Proof.
  unfold invoke_adapter. split.
  - destruct (workers s !! t) as [w|] eqn:Hw; [|done]. simpl. intros He.
    exists w. split; [done|].
    destruct (pc w) eqn:Hpc, a; simplify_eq/=; try (by econstructor).
    + destruct (counters_lock s) eqn:Hlk; simplify_eq. by constructor.
    + destruct (with_body _ _ _ _) as [[[[id|] r'] ac']|] eqn:Hb; simplify_eq/=.
      * by econstructor.
      * by econstructor.
  - intros (w & -> & Hstep). simpl.
    destruct Hstep as [Hpc Hlk|? ? ? ? Hpc Hb|? ? ? Hpc Hb|? Hpc|Hpc|? ? ? ? Hpc|? Hpc|Hpc].
    all: rewrite Hpc; try done.
    + by rewrite Hlk.
    + by rewrite Hb.
    + by rewrite Hb.
Qed.

(** Every step rewrites the record of the scheduled thread and nothing
    else in [workers]. *)
Lemma step_workers single_adapter s t w a c s' :
  step sub single_adapter s t w a c s' ->
  exists w', workers s' = <[t := w']> (workers s).
Proof. destruct 1; eauto. Qed.

Lemma step_length_workers single_adapter s t w a c s' :
  step sub single_adapter s t w a c s' ->
  length (workers s') = length (workers s).
Proof. intros [w' ->]%step_workers. apply length_insert. Qed.

(** *** The lock *)

Lemma step_lock_inv single_adapter s t w a c s' :
  workers s !! t = Some w ->
  step sub single_adapter s t w a c s' ->
  lock_inv s -> lock_inv s'.
Proof.
  intros Hw Hstep [Hown Hinv].
  pose proof (lookup_lt_Some _ _ _ Hw) as Hlt.
  pose proof (Hinv _ _ Hw) as Hme.
  split.
  { intros t' Hl'. apply lookup_lt_is_Some.
    rewrite (step_length_workers _ _ _ _ _ _ _ Hstep). apply lookup_lt_is_Some.
    destruct Hstep; simpl in Hl'; simplify_eq; eauto. }
  intros t' w' Hw'.
  assert (forall w0, t' <> t -> <[t := w0]> (workers s) !! t' = Some w' ->
            (in_block (pc w') = true <-> counters_lock s = Some t')) as Hother.
  { intros w0 Hne Hl. rewrite list_lookup_insert_ne in Hl by done. by apply Hinv. }
  destruct Hstep as [Hpc Hlk|? ? ? ? Hpc Hb|? ? ? Hpc Hb|? Hpc|Hpc|? ? ? ? Hpc|? Hpc|Hpc];
    simpl in *; rewrite Hpc in Hme; simpl in Hme;
    (destruct (decide (t' = t)) as [->|Hne];
     [ rewrite list_lookup_insert_eq in Hw' by done; simplify_eq/= | ]).
  all: try (specialize (Hother _ Hne Hw')).
  all: try (destruct Hme as [Hme1 Hme2]).
  all: try (split; [done | intros; congruence]).
  all: try (split; [intros; congruence | intros; done]).
  all: try done.
  - rewrite Hother, Hlk. split; intros; congruence.
  - rewrite Hother. rewrite Hme1 by done. split; intros; congruence.
  - rewrite Hother. rewrite Hme1 by done. split; intros; congruence.
Qed.

(** *** The list objects shared with the main thread *)

Lemma step_store_inv single_adapter s t w a c s' :
  workers s !! t = Some w ->
  step sub single_adapter s t w a c s' ->
  store_inv s -> store_inv s'.
Proof.
  intros Hw Hstep [Hlen Hinv].
  pose proof (lookup_lt_Some _ _ _ Hw) as Hlt.
  pose proof (Hinv _ _ Hw) as Hme.
  split.
  { destruct Hstep; simpl; rewrite ?length_insert, ?length_alter; done. }
  intros t' w' Hw'.
  destruct Hstep as [Hpc Hlk|? ? ? ? Hpc Hb|? ? ? Hpc Hb|? Hpc|Hpc|? ? ? ? Hpc|? Hpc|Hpc];
    simpl in *; rewrite Hpc in Hme;
    (destruct (decide (t' = t)) as [->|Hne];
     [ rewrite list_lookup_insert_eq in Hw' by done; simplify_eq/=
     | rewrite list_lookup_insert_ne in Hw' by done ]).
  all: try done.
  all: try (by apply Hinv).
  - rewrite list_lookup_alter_eq, Hme. done.
  - rewrite list_lookup_alter_ne by done. by apply Hinv.
Qed.

Ltac step_cases H :=
  destruct H as [Hpc Hlk|? ? ? ? Hpc Hb|? ? ? Hpc Hb|? Hpc|Hpc|? ? ? ? Hpc|? Hpc|Hpc].

(** *** The counters *)

Lemma step_mode_isolation single_adapter s t w a c s' :
  step sub single_adapter s t w a c s' ->
  if single_adapter then adapter_counters s' = adapter_counters s
  else total_requests s' = total_requests s.
Proof.
  intros Hstep. step_cases Hstep; destruct single_adapter; simpl; try done.
  - rewrite with_body_single in Hb. by case_match; simplify_eq.
  - by apply with_body_multi_take in Hb as [-> _].
  - rewrite with_body_single in Hb. by case_match; simplify_eq.
  - by apply with_body_multi_break in Hb as [-> _].
Qed.

Lemma step_nonneg single_adapter s t w a c s' :
  step sub single_adapter s t w a c s' ->
  nonneg s -> nonneg s'.
Proof.
  intros Hstep [Hr Hc]. step_cases Hstep; simpl; try done.
  - destruct single_adapter.
    + rewrite with_body_single in Hb. case_match; simplify_eq. split; simpl; [lia|done].
    + apply with_body_multi_take in Hb as (-> & i & n & -> & Hi & Hpos & ->).
      split; simpl; [done|]. apply Forall_alter; [done|].
      intros n' Hn'. simplify_eq. lia.
  - destruct single_adapter.
    + rewrite with_body_single in Hb. by case_match; simplify_eq.
    + by apply with_body_multi_break in Hb as (-> & -> & _).
Qed.

Lemma step_pool_sum single_adapter s t w a c s' :
  step sub single_adapter s t w a c s' ->
  sum_Z (pool single_adapter s) =
  (sum_Z (pool single_adapter s') + Z.of_nat (length (option_list c)))%Z.
Proof.
  intros Hstep. unfold pool.
  step_cases Hstep; simpl; try (destruct single_adapter; simpl; lia).
  - destruct single_adapter.
    + rewrite with_body_single in Hb. case_match; simplify_eq/=. lia.
    + apply with_body_multi_take in Hb as (-> & i & n & -> & Hi & Hpos & ->).
      rewrite (sum_Z_alter_pred _ _ _ Hi). lia.
  - destruct single_adapter.
    + rewrite with_body_single in Hb. case_match; simplify_eq/=. lia.
    + apply with_body_multi_break in Hb as (-> & -> & _). lia.
Qed.

Lemma step_quota single_adapter s t w a c s' :
  step sub single_adapter s t w a c s' ->
  quota single_adapter s = quota single_adapter s' + length (option_list c).
Proof.
  intros Hstep. unfold quota, pool.
  step_cases Hstep; simpl; try (destruct single_adapter; simpl; lia).
  - destruct single_adapter.
    + rewrite with_body_single in Hb. case_match; simplify_eq/=. lia.
    + apply with_body_multi_take in Hb as (-> & i & n & -> & Hi & Hpos & ->).
      rewrite <- (to_nat_alter_pred _ _ _ Hi Hpos). lia.
  - destruct single_adapter.
    + rewrite with_body_single in Hb. case_match; simplify_eq/=. lia.
    + apply with_body_multi_break in Hb as (-> & -> & _). lia.
Qed.

(** An empty pool hands out nothing and stays as it is. *)
Lemma step_exhausted single_adapter s t w a c s' :
  step sub single_adapter s t w a c s' ->
  exhausted single_adapter s = true ->
  c = None /\ total_requests s' = total_requests s /\
  adapter_counters s' = adapter_counters s.
Proof.
  intros Hstep Hex. unfold exhausted in Hex.
  step_cases Hstep; simpl; try done.
  - destruct single_adapter.
    + rewrite with_body_single in Hb. case_match; simplify_eq/=.
    + apply with_body_multi_take in Hb as (-> & i & n & -> & Hi & Hpos & ->).
      assert (i ∈ remaining_adapters (adapter_counters s)) as Hin
        by (apply elem_of_remaining_adapters; eauto).
      destruct (remaining_adapters (adapter_counters s)); [|done].
      by apply elem_of_nil in Hin.
  - destruct single_adapter.
    + rewrite with_body_single in Hb. by case_match; simplify_eq/=.
    + by apply with_body_multi_break in Hb as (-> & -> & _).
Qed.

Lemma exhausted_ext single_adapter s s' :
  total_requests s' = total_requests s ->
  adapter_counters s' = adapter_counters s ->
  exhausted single_adapter s' = exhausted single_adapter s.
Proof. unfold exhausted. by intros -> ->. Qed.

Lemma step_break_exhausted single_adapter s t w choice s' :
  step sub single_adapter s t w (Body choice : action num response) None s' ->
  exhausted single_adapter s = true.
Proof.
  inversion 1 as [| |? ? ? Hpc Hb| | | | |]; subst. unfold exhausted.
  destruct single_adapter.
  - rewrite with_body_single in Hb. by case_match; simplify_eq/=.
  - apply with_body_multi_break in Hb as (_ & _ & ->). done.
Qed.

Lemma step_break_inv single_adapter s t w a c s' :
  workers s !! t = Some w ->
  step sub single_adapter s t w a c s' ->
  break_inv single_adapter s -> break_inv single_adapter s'.
Proof.
  intros Hw Hstep Hinv t' w' Hw' Hleft.
  pose proof (lookup_lt_Some _ _ _ Hw) as Hlt.
  assert (exhausted single_adapter s = true) as Hex.
  { destruct (decide (t' = t)) as [->|Hne].
    - pose proof (Hinv _ _ Hw) as Hme.
      pose proof (step_break_exhausted single_adapter s t w) as Hbreak.
      inversion Hstep as [Hpc Hlk|? ? ? ? Hpc Hb|? ? ? Hpc Hb|? Hpc|Hpc|? ? ? ? Hpc|? Hpc|Hpc];
        subst; simpl in Hw'; rewrite list_lookup_insert_eq in Hw' by done;
        simplify_eq/=; rewrite ?Hpc in Hme; eauto.
    - destruct (step_workers _ _ _ _ _ _ _ Hstep) as [w0 Hws].
      rewrite Hws, list_lookup_insert_ne in Hw' by done. eauto. }
  destruct (step_exhausted _ _ _ _ _ _ _ Hstep Hex) as (_ & Hr & Hc).
  by rewrite (exhausted_ext _ _ _ Hr Hc).
Qed.

Lemma step_single_claim s t w a adapter_id s' :
  step sub true s t w a (Some adapter_id) s' -> adapter_id = 1.
Proof.
  inversion 1 as [|? ? ? ? Hpc Hb| | | | | |]; subst.
  rewrite with_body_single in Hb. by case_match; simplify_eq.
Qed.

Lemma step_multi_range s t w a adapter_id s' :
  step sub false s t w a (Some adapter_id) s' ->
  1 <= adapter_id <= length (adapter_counters s).
Proof.
  inversion 1 as [|? ? ? ? Hpc Hb| | | | | |]; subst.
  apply with_body_multi_take in Hb as (-> & i & n & -> & Hi & Hpos & ->).
  apply lookup_lt_Some in Hi. lia.
Qed.

Lemma claims_of_app (adapter_id : nat) (claims claims' : list nat) :
  claims_of adapter_id (claims ++ claims')
  = claims_of adapter_id claims + claims_of adapter_id claims'.
Proof. apply count_occ_app. Qed.

(** Each reservation lowers the counter of the adapter it names. *)
Lemma step_multi_claims s t w a c s' i count :
  step sub false s t w a c s' ->
  adapter_counters s !! i = Some count ->
  exists count', adapter_counters s' !! i = Some count' /\
    count = (count' + Z.of_nat (claims_of (i + 1) (option_list c)))%Z.
Proof.
  intros Hstep Hi.
  step_cases Hstep; simpl; try (exists count; split; [done | simpl; lia]).
  - apply with_body_multi_take in Hb as (-> & j & n & -> & Hj & Hpos & ->).
    destruct (decide (j = i)) as [->|Hne].
    + rewrite list_lookup_alter_eq, Hi. simpl. eexists. split; [done|].
      destruct (Nat.eq_dec _ _); lia.
    + rewrite list_lookup_alter_ne by done. exists count. split; [done|].
      destruct (Nat.eq_dec _ _); lia.
  - apply with_body_multi_break in Hb as (-> & -> & _). exists count.
    split; [done | simpl; lia].
Qed.

Lemma step_length_counters single_adapter s t w a c s' :
  step sub single_adapter s t w a c s' ->
  length (adapter_counters s') = length (adapter_counters s).
Proof.
  intros Hstep. step_cases Hstep; simpl; try done.
  - destruct single_adapter.
    + rewrite with_body_single in Hb. by case_match; simplify_eq.
    + apply with_body_multi_take in Hb as (-> & j & n & -> & Hj & Hpos & ->).
      apply length_alter.
  - destruct single_adapter.
    + rewrite with_body_single in Hb. by case_match; simplify_eq.
    + by apply with_body_multi_break in Hb as (-> & -> & _).
Qed.

(** *** Reserved requests, measurements and fuel *)

Lemma step_reserved single_adapter s t w a c s' :
  workers s !! t = Some w ->
  step sub single_adapter s t w a c s' ->
  sum_list_with reserved (workers s')
  = sum_list_with reserved (workers s) + length (option_list c).
Proof.
  intros Hw Hstep.
  step_cases Hstep; simpl;
    match goal with
    | |- context [<[t := ?w']> _] =>
        pose proof (sum_list_with_insert reserved _ _ _ w' Hw) as Hsum
    end;
    unfold reserved in *; simpl in *; rewrite Hpc in Hsum; simpl in Hsum;
    rewrite ?length_app in Hsum; simpl in Hsum; lia.
Qed.

Lemma step_fuel single_adapter s t w a c s' :
  workers s !! t = Some w ->
  step sub single_adapter s t w a c s' ->
  fuel single_adapter s' < fuel single_adapter s.
Proof.
  intros Hw Hstep. unfold fuel.
  pose proof (step_quota _ _ _ _ _ _ _ Hstep) as Hq.
  step_cases Hstep; simpl;
    match goal with
    | |- context [<[t := ?w']> _] =>
        pose proof (sum_list_with_insert (fun w => weight (pc w)) _ _ _ w' Hw) as Hsum
    end;
    unfold quota, pool in *; simpl in *; rewrite Hpc in Hsum; simpl in Hsum; lia.
Qed.

Lemma step_died single_adapter s t w a c s' t' w' :
  workers s !! t = Some w ->
  step sub single_adapter s t w a c s' ->
  workers s' !! t' = Some w' -> pc w' = Died ->
  raises (t, a) = true \/ exists w0, workers s !! t' = Some w0 /\ pc w0 = Died.
Proof.
  intros Hw Hstep Hw' Hd.
  pose proof (lookup_lt_Some _ _ _ Hw) as Hlt.
  destruct (decide (t' = t)) as [->|Hne].
  - step_cases Hstep; simpl in Hw'; rewrite list_lookup_insert_eq in Hw' by done;
      simplify_eq/=. by left.
  - destruct (step_workers _ _ _ _ _ _ _ Hstep) as [w0 Hws].
    rewrite Hws, list_lookup_insert_ne in Hw' by done. eauto.
Qed.

(** *** Absence of deadlock *)

Lemma forallb_false_lookup {A : Type} (f : A -> bool) (l : list A) :
  forallb f l = false -> exists i x, l !! i = Some x /\ f x = false.
Proof.
  induction l as [|x l IH]; simpl; [done|].
  destruct (f x) eqn:Hx; simpl.
  - intros (i & y & Hi & Hy)%IH. by exists (S i), y.
  - intros _. by exists 0, x.
Qed.

Lemma with_body_first single_adapter requests counters :
  is_Some (with_body single_adapter 0 requests counters).
Proof.
  unfold with_body. destruct single_adapter.
  - by case_match.
  - by destruct (remaining_adapters counters).
Qed.

Lemma progress single_adapter s :
  lock_inv s -> joined s = false ->
  exists l r, invoke_adapter sub single_adapter l s = Some r.
Proof.
  intros [Hown Hinv] (t & w & Hw & Hend)%forallb_false_lookup.
  destruct (counters_lock s) as [h|] eqn:Hlk.
  - destruct (Hown _ eq_refl) as [wh Hwh].
    pose proof (proj2 (Hinv _ _ Hwh) eq_refl) as Hin.
    destruct (pc wh) eqn:Hpc; try done.
    + destruct (with_body_first single_adapter (total_requests s) (adapter_counters s))
        as [[[[id|] r'] ac'] Hb].
      * exists (h, Body 0). eexists. apply invoke_adapter_step. eexists. split; [done|].
        by econstructor.
      * exists (h, Body 0). eexists. apply invoke_adapter_step. eexists. split; [done|].
        by econstructor.
    + exists (h, Release). eexists. apply invoke_adapter_step. eexists. split; [done|].
      by econstructor.
    + exists (h, Release). eexists. apply invoke_adapter_step. eexists. split; [done|].
      by econstructor.
  - pose proof (Hinv _ _ Hw) as Hme. unfold ended in Hend.
    destruct (pc w) eqn:Hpc; simpl in Hme; try done;
      try (destruct Hme as [Hme _]; by specialize (Hme eq_refl)).
    + exists (t, Acquire). eexists. apply invoke_adapter_step. eexists. split; [done|].
      by econstructor.
    + exists (t, Raises). eexists. apply invoke_adapter_step. eexists. split; [done|].
      by econstructor.
    + exists (t, Extend). eexists. apply invoke_adapter_step. eexists. split; [done|].
      by econstructor.
Qed.

End Steps.

(** ** Schedules *)

Section Runs.
Context {num response : Type}.
Variable sub : num -> num -> num.

#[local] Abbreviation state := (@state num).
#[local] Abbreviation worker := (@worker num).
#[local] Abbreviation label := (@label num response).

Implicit Types (s : state) (w : worker) (t : nat) (l : label) (ls : list label)
  (a : action num response) (c : option nat) (cs : list nat)
  (single_adapter : bool).

Lemma run_cons_inv single_adapter l ls s cs s' :
  run sub single_adapter (l :: ls) s = Some (cs, s') ->
  exists t a w c s1 cs1,
    l = (t, a) /\ workers s !! t = Some w /\
    step sub single_adapter s t w a c s1 /\
    run sub single_adapter ls s1 = Some (cs1, s') /\
    cs = option_list c ++ cs1.
Proof.
  simpl. destruct l as [t a].
  destruct (invoke_adapter sub single_adapter (t, a) s) as [[c s1]|] eqn:He; [|done]. simpl.
  destruct (run sub single_adapter ls s1) as [[cs1 s2]|] eqn:Hr; [|done]. simpl.
  intros [= <- <-]. apply invoke_adapter_step in He as (w & Hw & Hstep).
  by exists t, a, w, c, s1, cs1.
Qed.

Lemma run_app single_adapter ls ls' s cs s1 cs' s2 :
  run sub single_adapter ls s = Some (cs, s1) ->
  run sub single_adapter ls' s1 = Some (cs', s2) ->
  run sub single_adapter (ls ++ ls') s = Some (cs ++ cs', s2).
Proof.
  revert s cs. induction ls as [|l ls IH]; intros s cs Hr Hr'.
  - by simplify_eq/=.
  - simpl in *. destruct (invoke_adapter sub single_adapter l s) as [[c s0]|]; [|done].
    simpl in *. destruct (run sub single_adapter ls s0) as [[cs0 s3]|] eqn:Hr0; [|done].
    simplify_eq/=. rewrite (IH _ _ Hr0 Hr'). simpl. by rewrite app_assoc.
Qed.

(** A property that every step keeps is kept by every schedule. *)
Lemma run_invariant (P : state -> Prop) single_adapter :
  (forall s t w a c s', workers s !! t = Some w ->
     step sub single_adapter s t w a c s' -> P s -> P s') ->
  forall ls s cs s', run sub single_adapter ls s = Some (cs, s') -> P s -> P s'.
Proof.
  intros Hstep ls. induction ls as [|l ls IH]; intros s cs s' Hr HP.
  - by simplify_eq/=.
  - apply run_cons_inv in Hr as (t & a & w & c & s1 & cs1 & -> & Hw & Hs & Hr & ->).
    eauto.
Qed.

Lemma run_lock_inv single_adapter ls s cs s' :
  run sub single_adapter ls s = Some (cs, s') -> lock_inv s -> lock_inv s'.
Proof. apply run_invariant. intros; by eapply step_lock_inv. Qed.

Lemma run_store_inv single_adapter ls s cs s' :
  run sub single_adapter ls s = Some (cs, s') -> store_inv s -> store_inv s'.
Proof. apply run_invariant. intros; by eapply step_store_inv. Qed.

Lemma run_nonneg single_adapter ls s cs s' :
  run sub single_adapter ls s = Some (cs, s') -> nonneg s -> nonneg s'.
Proof. apply run_invariant. intros; by eapply step_nonneg. Qed.

Lemma run_break_inv single_adapter ls s cs s' :
  run sub single_adapter ls s = Some (cs, s') ->
  break_inv single_adapter s -> break_inv single_adapter s'.
Proof. apply run_invariant. intros; by eapply step_break_inv. Qed.

Lemma run_length_workers single_adapter ls s cs s' :
  run sub single_adapter ls s = Some (cs, s') ->
  length (workers s') = length (workers s).
Proof.
  intros Hr.
  apply (run_invariant (fun s0 => length (workers s0) = length (workers s))
           single_adapter) with (ls := ls) (s := s) (cs := cs); [|done..].
  intros ? ? ? ? ? ? _ Hs <-. by eapply step_length_workers.
Qed.

Lemma run_length_counters single_adapter ls s cs s' :
  run sub single_adapter ls s = Some (cs, s') ->
  length (adapter_counters s') = length (adapter_counters s).
Proof.
  intros Hr.
  apply (run_invariant (fun s0 => length (adapter_counters s0) = length (adapter_counters s))
           single_adapter) with (ls := ls) (s := s) (cs := cs); [|done..].
  intros ? ? ? ? ? ? _ Hs <-. by eapply step_length_counters.
Qed.

Lemma run_mode_isolation single_adapter ls s cs s' :
  run sub single_adapter ls s = Some (cs, s') ->
  if single_adapter then adapter_counters s' = adapter_counters s
  else total_requests s' = total_requests s.
Proof.
  revert s cs. induction ls as [|l ls IH]; intros s cs Hr.
  - simplify_eq/=. by destruct single_adapter.
  - apply run_cons_inv in Hr as (t & a & w & c & s1 & cs1 & -> & Hw & Hs & Hr & ->).
    apply step_mode_isolation in Hs. apply IH in Hr.
    destruct single_adapter; congruence.
Qed.

Lemma run_pool_sum single_adapter ls s cs s' :
  run sub single_adapter ls s = Some (cs, s') ->
  sum_Z (pool single_adapter s)
  = (sum_Z (pool single_adapter s') + Z.of_nat (length cs))%Z.
Proof.
  revert s cs. induction ls as [|l ls IH]; intros s cs Hr.
  - simplify_eq/=. lia.
  - apply run_cons_inv in Hr as (t & a & w & c & s1 & cs1 & -> & Hw & Hs & Hr & ->).
    apply step_pool_sum in Hs. apply IH in Hr. rewrite length_app. lia.
Qed.

Lemma run_reserved single_adapter ls s cs s' :
  run sub single_adapter ls s = Some (cs, s') ->
  sum_list_with reserved (workers s')
  = sum_list_with reserved (workers s) + length cs.
Proof.
  revert s cs. induction ls as [|l ls IH]; intros s cs Hr.
  - simplify_eq/=. lia.
  - apply run_cons_inv in Hr as (t & a & w & c & s1 & cs1 & -> & Hw & Hs & Hr & ->).
    apply (step_reserved _ _ _ _ _ _ _ _ Hw) in Hs. apply IH in Hr.
    rewrite length_app. lia.
Qed.

(** Every step uses up fuel, so no schedule is longer than the fuel of the
    state it starts from. *)
Lemma run_fuel single_adapter ls s cs s' :
  run sub single_adapter ls s = Some (cs, s') ->
  fuel single_adapter s' + length ls <= fuel single_adapter s.
Proof.
  revert s cs. induction ls as [|l ls IH]; intros s cs Hr.
  - simplify_eq/=. lia.
  - apply run_cons_inv in Hr as (t & a & w & c & s1 & cs1 & -> & Hw & Hs & Hr & ->).
    apply (step_fuel _ _ _ _ _ _ _ _ Hw) in Hs. apply IH in Hr. simpl. lia.
Qed.

Lemma run_exhausted single_adapter ls s cs s' :
  run sub single_adapter ls s = Some (cs, s') ->
  exhausted single_adapter s = true ->
  cs = [] /\ total_requests s' = total_requests s /\
  adapter_counters s' = adapter_counters s.
Proof.
  revert s cs. induction ls as [|l ls IH]; intros s cs Hr Hex.
  - by simplify_eq/=.
  - apply run_cons_inv in Hr as (t & a & w & c & s1 & cs1 & -> & Hw & Hs & Hr & ->).
    destruct (step_exhausted _ _ _ _ _ _ _ _ Hs Hex) as (-> & Hr1 & Hc1).
    rewrite <- (exhausted_ext _ _ _ Hr1 Hc1) in Hex.
    destruct (IH _ _ Hr Hex) as (-> & Hr2 & Hc2). split; [done|]. split; congruence.
Qed.

Lemma run_single_claims ls s cs s' :
  run sub true ls s = Some (cs, s') -> Forall (eq 1) cs.
Proof.
  revert s cs. induction ls as [|l ls IH]; intros s cs Hr.
  - simplify_eq/=. constructor.
  - apply run_cons_inv in Hr as (t & a & w & c & s1 & cs1 & -> & Hw & Hs & Hr & ->).
    apply Forall_app. split; [|eauto].
    destruct c as [id|]; [|constructor].
    apply step_single_claim in Hs as ->. constructor; [done|constructor].
Qed.

Lemma run_multi_range ls s cs s' :
  run sub false ls s = Some (cs, s') ->
  Forall (fun adapter_id => 1 <= adapter_id <= length (adapter_counters s)) cs.
Proof.
  revert s cs. induction ls as [|l ls IH]; intros s cs Hr.
  - simplify_eq/=. constructor.
  - apply run_cons_inv in Hr as (t & a & w & c & s1 & cs1 & -> & Hw & Hs & Hr & ->).
    apply Forall_app. split.
    + destruct c as [id|]; [|constructor].
      apply step_multi_range in Hs. constructor; [done|constructor].
    + rewrite <- (step_length_counters _ _ _ _ _ _ _ _ Hs). eauto.
Qed.

Lemma run_multi_claims ls s cs s' i count :
  run sub false ls s = Some (cs, s') ->
  adapter_counters s !! i = Some count ->
  exists count', adapter_counters s' !! i = Some count' /\
    count = (count' + Z.of_nat (claims_of (i + 1) cs))%Z.
Proof.
  revert s cs count. induction ls as [|l ls IH]; intros s cs n Hr Hi.
  - simplify_eq/=. exists n. split; [done|]. unfold claims_of. simpl. lia.
  - apply run_cons_inv in Hr as (t & a & w & c & s1 & cs1 & -> & Hw & Hs & Hr & ->).
    destruct (step_multi_claims _ _ _ _ _ _ _ _ _ Hs Hi) as (n1 & Hi1 & ->).
    destruct (IH _ _ _ Hr Hi1) as (n2 & Hi2 & ->).
    exists n2. split; [done|]. rewrite claims_of_app. lia.
Qed.

Lemma run_died single_adapter ls s cs s' t' w' :
  run sub single_adapter ls s = Some (cs, s') ->
  workers s' !! t' = Some w' -> pc w' = Died ->
  existsb raises ls = true \/ exists w0, workers s !! t' = Some w0 /\ pc w0 = Died.
Proof.
  revert s cs. induction ls as [|l ls IH]; intros s cs Hr Hw' Hd.
  - simplify_eq/=. eauto.
  - apply run_cons_inv in Hr as (t & a & w & c & s1 & cs1 & -> & Hw & Hs & Hr & ->).
    simpl. destruct (IH _ _ Hr Hw' Hd) as [->|(w1 & Hw1 & Hd1)].
    + left. apply orb_true_r.
    + destruct (step_died _ _ _ _ _ _ _ _ _ _ Hw Hs Hw1 Hd1) as [->|?]; eauto.
Qed.

End Runs.

(** ** The state a scenario starts from, and the accounting after the joins *)

Section Scenario.
Context {num response : Type}.
Variable sub : num -> num -> num.

#[local] Abbreviation state := (@state num).
#[local] Abbreviation worker := (@worker num).
#[local] Abbreviation label := (@label num response).

Implicit Types (s : state) (w : worker) (t : nat) (l : label) (ls : list label)
  (a : action num response) (c : option nat) (cs : list nat)
  (single_adapter : bool) (counters : list Z).

Lemma spawn_lookup (num_threads requests : Z) counters t w :
  workers (@spawn num num_threads requests counters) !! t = Some w ->
  w = Worker AtWith [].
Proof. simpl. by intros [-> _]%lookup_replicate. Qed.

Lemma spawn_lock_inv (num_threads requests : Z) counters :
  lock_inv (@spawn num num_threads requests counters).
Proof.
  split; [done|]. intros t w ->%spawn_lookup. simpl. split; intros; done.
Qed.

Lemma spawn_store_inv (num_threads requests : Z) counters :
  store_inv (@spawn num num_threads requests counters).
Proof.
  split; simpl; [by rewrite !length_replicate|].
  intros t w [-> Hlt]%lookup_replicate. simpl. by apply lookup_replicate_2.
Qed.

Lemma spawn_break_inv single_adapter (num_threads requests : Z) counters :
  break_inv single_adapter (@spawn num num_threads requests counters).
Proof. intros t w ->%spawn_lookup. done. Qed.

Lemma spawn_reserved (num_threads requests : Z) counters :
  sum_list_with reserved (workers (@spawn num num_threads requests counters)) = 0.
Proof.
  simpl. induction (Z.to_nat num_threads) as [|n IH]; simpl; [done|].
  by rewrite IH.
Qed.

Lemma spawn_fuel single_adapter (num_threads requests : Z) counters :
  fuel single_adapter (@spawn num num_threads requests counters)
  = 4 * quota single_adapter (@spawn num num_threads requests counters)
    + 4 * Z.to_nat num_threads.
Proof.
  unfold fuel. f_equal. simpl.
  induction (Z.to_nat num_threads) as [|n IH]; simpl; [done|].
  rewrite IH. lia.
Qed.

Lemma configure_Some (requests num_adapters requests' : Z) counters :
  configure requests num_adapters = Some (requests', counters) ->
  num_adapters <> 0%Z /\ requests' = requests /\
  counters = replicate (Z.to_nat num_adapters) (requests / num_adapters)%Z.
Proof.
  unfold configure. destruct (Z.eqb_spec num_adapters 0); [done|].
  by intros [= <- <-].
Qed.

Lemma quotient_nonneg (requests num_adapters : Z) :
  (0 <= requests)%Z -> (0 < num_adapters)%Z -> (0 <= requests / num_adapters)%Z.
Proof. intros. by apply Z.div_pos. Qed.

Lemma configure_nonneg (requests num_adapters num_threads requests' : Z) counters :
  (0 <= requests)%Z ->
  configure requests num_adapters = Some (requests', counters) ->
  nonneg (@spawn num num_threads requests' counters).
Proof.
  intros Hr (Hn & -> & ->)%configure_Some. split; simpl; [done|].
  destruct (Z.to_nat num_adapters) eqn:Hnat; [constructor|].
  apply Forall_replicate, quotient_nonneg; lia.
Qed.

(** With all counters non-negative, an empty pool is a pool of zeros. *)
Lemma exhausted_zero single_adapter s :
  nonneg s ->
  exhausted single_adapter s = true <-> Forall (eq 0%Z) (pool single_adapter s).
Proof.
  intros [Hr Hc]. unfold exhausted, pool. destruct single_adapter.
  - rewrite Forall_singleton. destruct (Z.ltb_spec 0 (total_requests s)); simpl.
    + split; [done | lia].
    + split; [lia | done].
  - transitivity (remaining_adapters (adapter_counters s) = []).
    { by destruct (remaining_adapters (adapter_counters s)). }
    rewrite remaining_adapters_nil, !Forall_lookup. split.
    + intros Hle i n Hi. specialize (Hle _ _ Hi).
      rewrite Forall_lookup in Hc. specialize (Hc _ _ Hi). simpl in *. lia.
    + intros Hz i n Hi. specialize (Hz _ _ Hi). simpl in *. lia.
Qed.

(** *** What the main thread finds in [all_latencies] *)

Lemma total_requests_made_workers (ws : list worker) (all : list (list num)) :
  length all = length ws ->
  (forall t w, ws !! t = Some w ->
     all !! t = Some (match pc w with Returned => latencies w | _ => [] end)) ->
  total_requests_made all = sum_list_with kept ws.
Proof.
  unfold total_requests_made.
  revert all. induction ws as [|w ws IH]; intros [|x all] Hlen Hall; simplify_eq/=.
  - done.
  - pose proof (Hall 0 w eq_refl) as Hx. simplify_eq/=.
    rewrite (IH all); [|done|intros t w' Hw'; exact (Hall (S t) w' Hw')].
    f_equal. unfold kept. by destruct (pc w).
Qed.

Lemma recorded_kept s :
  store_inv s -> recorded s = sum_list_with kept (workers s).
Proof. intros [Hlen Hall]. by apply total_requests_made_workers. Qed.

Lemma total_requests_made_concat (all : list (list num)) :
  total_requests_made all = length (concat all).
Proof.
  unfold total_requests_made. induction all as [|x all IH]; simpl; [done|].
  by rewrite length_app, <- IH.
Qed.

Lemma kept_lost_reserved (ws : list worker) :
  sum_list_with kept ws + sum_list_with lost ws <= sum_list_with reserved ws.
Proof.
  induction ws as [|w ws IH]; simpl; [done|].
  assert (kept w + lost w <= reserved w); [|lia].
  unfold kept, lost, reserved. destruct (pc w); simpl; lia.
Qed.

Lemma joined_accounting s :
  joined s = true ->
  sum_list_with kept (workers s) + sum_list_with lost (workers s)
  = sum_list_with reserved (workers s).
Proof.
  unfold joined. intros Hj. apply sum_list_with_pointwise.
  apply Is_true_true, forallb_True in Hj.
  eapply Forall_impl; [exact Hj|]. intros w Hw.
  unfold ended, kept, lost, reserved in *. destruct (pc w); simpl in *; done || lia.
Qed.

(** Without a raised exception nobody dies and nothing is lost. *)
Lemma no_raise_no_loss single_adapter (num_threads requests : Z) counters ls cs s :
  run sub single_adapter ls (spawn num_threads requests counters) = Some (cs, s) ->
  existsb raises ls = false ->
  sum_list_with lost (workers s) = 0.
Proof.
  intros Hr Hno. apply sum_list_with_zero, Forall_lookup. intros t w Hw.
  unfold lost. destruct (pc w) eqn:Hpc; try done.
  destruct (run_died _ _ _ _ _ _ _ _ Hr Hw Hpc) as [Hex|(w0 & Hw0 & Hd)].
  - congruence.
  - apply spawn_lookup in Hw0 as ->. done.
Qed.

(** After the joins, a worker that did not die has seen the pool empty. *)
Lemma joined_exhausted single_adapter (num_threads requests : Z) counters ls cs s t w :
  run sub single_adapter ls (spawn num_threads requests counters) = Some (cs, s) ->
  workers s !! t = Some w -> pc w = Returned ->
  exhausted single_adapter s = true.
Proof.
  intros Hr Hw Hpc.
  apply (run_break_inv _ _ _ _ _ _ Hr (spawn_break_inv _ _ _ _) t w Hw).
  by rewrite Hpc.
Qed.

End Scenario.

(** * The claims *)

Section Claims.
Context {num response : Type}.
Variable sub : num -> num -> num.

#[local] Abbreviation state := (@state num).
#[local] Abbreviation worker := (@worker num).
#[local] Abbreviation label := (@label num response).

Implicit Types (s : state) (w : worker) (t : nat) (l : label) (ls : list label)
  (a : action num response) (c : option nat) (cs : list nat)
  (single_adapter : bool) (counters : list Z).

(** C9.  In every state that a benchmark run reaches, whoever holds
    [counters_lock] is a worker inside the [with] block, every worker inside
    the block is the holder, and a worker whose request is in flight does not
    hold the lock. *)
Theorem lock_only_held_in_block single_adapter (num_threads requests : Z)
    counters ls cs s :
  run sub single_adapter ls (spawn num_threads requests counters) = Some (cs, s) ->
  (forall t, counters_lock s = Some t ->
     exists w, workers s !! t = Some w /\ in_block (pc w) = true) /\
  (forall t w, workers s !! t = Some w -> in_block (pc w) = true ->
     counters_lock s = Some t) /\
  (forall t w adapter_id, workers s !! t = Some w -> pc w = AtPredict adapter_id ->
     counters_lock s <> Some t).
Proof.
  intros Hr.
  destruct (run_lock_inv _ _ _ _ _ _ Hr (spawn_lock_inv _ _ _)) as [Hown Hinv].
  repeat split.
  - intros t Hlk. destruct (Hown _ Hlk) as [w Hw]. exists w. split; [done|].
    by apply (Hinv _ _ Hw).
  - intros t w Hw Hin. by apply (Hinv _ _ Hw).
  - intros t w id Hw Hpc Hlk. apply (Hinv _ _ Hw) in Hlk. by rewrite Hpc in Hlk.
Qed.

(** C10.  A single-adapter run never changes [adapter_counters], and a
    multi-adapter run never changes [total_requests]: at every point of the
    run the other counter still has the value the run started with. *)
Theorem mode_isolation single_adapter (num_threads requests : Z) counters ls cs s :
  run sub single_adapter ls (spawn num_threads requests counters) = Some (cs, s) ->
  (single_adapter = true -> adapter_counters s = counters) /\
  (single_adapter = false -> total_requests s = requests).
Proof.
  intros Hr. apply run_mode_isolation in Hr.
  split; intros ->; exact Hr.
Qed.

(** C4.  Started from a configuration with a non-negative budget, every
    state a run reaches has no negative counter; from there on, whatever is
    scheduled next, no counter becomes negative, the sum of the remaining
    counts of the pool (and of both kinds of counters together) goes down
    by exactly the number of requests reserved, an empty pool reserves
    nothing and stays empty, and the pool is empty exactly when all its
    remaining counts are zero. *)
Theorem pool_invariant single_adapter (budget num_adapters num_threads requests : Z)
    counters ls cs s ls' cs' s' :
  (0 <= budget)%Z ->
  configure budget num_adapters = Some (requests, counters) ->
  run sub single_adapter ls (spawn num_threads requests counters) = Some (cs, s) ->
  run sub single_adapter ls' s = Some (cs', s') ->
  nonneg s /\ nonneg s' /\
  sum_Z (pool single_adapter s')
  = (sum_Z (pool single_adapter s) - Z.of_nat (length cs'))%Z /\
  (sum_Z (pool single_adapter s') <= sum_Z (pool single_adapter s))%Z /\
  (total_requests s' + sum_Z (adapter_counters s')
   = total_requests s + sum_Z (adapter_counters s) - Z.of_nat (length cs'))%Z /\
  (exhausted single_adapter s = true ->
     cs' = [] /\ exhausted single_adapter s' = true) /\
  (exhausted single_adapter s' = true <->
     Forall (eq 0%Z) (pool single_adapter s')).
Proof.
  intros Hb Hcfg Hr Hr'.
  assert (nonneg s) as Hs
    by (eapply run_nonneg; [exact Hr | by eapply configure_nonneg]).
  assert (nonneg s') as Hs' by (by eapply run_nonneg).
  pose proof (run_pool_sum _ _ _ _ _ _ Hr') as Hsum.
  split; [done|]. split; [done|]. split; [lia|]. split; [lia|]. split.
  { pose proof (run_mode_isolation _ _ _ _ _ _ Hr') as Hiso.
    unfold pool in Hsum. destruct single_adapter; simpl in Hsum.
    - rewrite Hiso. lia.
    - rewrite Hiso. lia. }
  split.
  - intros Hex. destruct (run_exhausted _ _ _ _ _ _ Hr' Hex) as (-> & Hreq & Hcnt).
    split; [done|]. by rewrite (exhausted_ext _ _ _ Hreq Hcnt).
  - by apply exhausted_zero.
Qed.

End Claims.

Section Counting.
Context {num response : Type}.
Variable sub : num -> num -> num.

#[local] Abbreviation state := (@state num).
#[local] Abbreviation worker := (@worker num).
#[local] Abbreviation label := (@label num response).

Implicit Types (s : state) (w : worker) (t : nat) (l : label) (ls : list label)
  (a : action num response) (c : option nat) (cs : list nat)
  (single_adapter : bool) (counters : list Z).

Lemma some_worker_returned single_adapter (num_threads requests : Z) counters ls cs s :
  run sub single_adapter ls (spawn num_threads requests counters) = Some (cs, s) ->
  joined s = true -> (0 < num_threads)%Z -> existsb raises ls = false ->
  exists t w, workers s !! t = Some w /\ pc w = Returned.
Proof.
  intros Hr Hj Hw Hno.
  pose proof (run_length_workers _ _ _ _ _ _ Hr) as Hlen. simpl in Hlen.
  rewrite length_replicate in Hlen.
  destruct (lookup_lt_is_Some_2 (workers s) 0) as [w Hw0]; [lia|].
  exists 0, w. split; [done|].
  apply Is_true_true, forallb_True in Hj. rewrite Forall_lookup in Hj.
  specialize (Hj _ _ Hw0). unfold ended in Hj.
  destruct (pc w) eqn:Hpc; try done.
  destruct (run_died _ _ _ _ _ _ _ _ Hr Hw0 Hpc) as [Hex|(w0 & Hw1 & Hd)].
  - congruence.
  - apply spawn_lookup in Hw1 as ->. done.
Qed.

(** Once a worker has returned, the pool of the run is used up. *)
Lemma returned_pool_empty single_adapter (num_threads requests : Z) counters ls cs s t w :
  nonneg (@spawn num num_threads requests counters) ->
  run sub single_adapter ls (spawn num_threads requests counters) = Some (cs, s) ->
  workers s !! t = Some w -> pc w = Returned ->
  Forall (eq 0%Z) (pool single_adapter s).
Proof.
  intros Hnn Hr Hw Hpc. apply exhausted_zero; [by eapply run_nonneg|].
  by eapply joined_exhausted.
Qed.

Lemma Forall_zero_sum (l : list Z) : Forall (eq 0%Z) l -> sum_Z l = 0%Z.
Proof. induction 1; simpl; lia. Qed.

Lemma claims_of_out_of_range (adapter_id n : nat) cs :
  Forall (fun adapter_id => 1 <= adapter_id <= n) cs ->
  ~ (1 <= adapter_id <= n) ->
  claims_of adapter_id cs = 0.
Proof.
  intros Hall Hout. apply count_occ_not_In. intros Hin.
  rewrite Forall_forall in Hall. apply Hout, Hall. by apply list_elem_of_In.
Qed.

Lemma run_recorded single_adapter (num_threads requests : Z) counters ls cs s :
  run sub single_adapter ls (spawn num_threads requests counters) = Some (cs, s) ->
  recorded s + sum_list_with lost (workers s) <= length cs /\
  (joined s = true -> recorded s + sum_list_with lost (workers s) = length cs).
Proof.
  intros Hr.
  pose proof (run_reserved _ _ _ _ _ _ Hr) as Hres.
  rewrite spawn_reserved in Hres.
  rewrite (recorded_kept s) by (eapply run_store_inv; [exact Hr | apply spawn_store_inv]).
  split.
  - pose proof (kept_lost_reserved (workers s)). lia.
  - intros Hj. rewrite (joined_accounting _ Hj). lia.
Qed.

(** A worker that died is never scheduled again. *)
Lemma run_died_stays single_adapter ls s cs s' t w :
  run sub single_adapter ls s = Some (cs, s') ->
  workers s !! t = Some w -> pc w = Died ->
  workers s' !! t = Some w.
Proof.
  intros Hr Hw Hpc.
  apply (run_invariant sub (fun s0 => workers s0 !! t = Some w) single_adapter)
    with (ls := ls) (s := s) (cs := cs); [|done..].
  intros s0 t0 w0 a c s1 Hw0 Hstep Hw1.
  destruct (decide (t0 = t)) as [->|Hne].
  - simplify_eq. destruct Hstep; congruence.
  - destruct (step_workers _ _ _ _ _ _ _ _ Hstep) as [w1 ->].
    by rewrite list_lookup_insert_ne.
Qed.

(** The reservations of a multi-adapter run fit in the budget. *)
Lemma multi_claims_bounded (budget num_adapters num_threads requests : Z)
    counters ls cs s :
  (0 <= budget)%Z -> (0 < num_adapters)%Z ->
  configure budget num_adapters = Some (requests, counters) ->
  run sub false ls (spawn num_threads requests counters) = Some (cs, s) ->
  (sum_Z (adapter_counters s) + Z.of_nat (length cs)
   = num_adapters * (budget / num_adapters))%Z /\
  (0 <= sum_Z (adapter_counters s))%Z.
Proof.
  intros Hb Hn Hcfg Hr.
  pose proof (configure_nonneg (num := num) _ _ num_threads _ _ Hb Hcfg) as Hnn0.
  apply configure_Some in Hcfg as (_ & -> & ->).
  pose proof (run_nonneg _ _ _ _ _ _ Hr Hnn0) as [_ Hnn].
  pose proof (run_pool_sum _ _ _ _ _ _ Hr) as Hsum. simpl in Hsum.
  rewrite sum_Z_replicate, Z2Nat.id in Hsum by lia.
  split; [lia | by apply sum_Z_nonneg].
Qed.

End Counting.

Section CountingClaims.
Context {num response : Type}.
Variable sub : num -> num -> num.

#[local] Abbreviation state := (@state num).
#[local] Abbreviation worker := (@worker num).
#[local] Abbreviation label := (@label num response).

Implicit Types (s : state) (w : worker) (t : nat) (l : label) (ls : list label)
  (a : action num response) (c : option nat) (cs : list nat)
  (single_adapter : bool) (counters : list Z).

(** C1, as the code has it.  In a multi-adapter run with [num_adapters]
    adapters and budget [budget], at every point of every execution each
    adapter has been reserved at most [budget / num_adapters] times and the
    reservations number at most [num_adapters * (budget / num_adapters)].
    When the run is over and some worker has left its loop by [break], and
    in particular when there is a worker and [predict] never raised, every
    adapter has been reserved exactly [budget / num_adapters] times and the
    total is exactly [num_adapters * (budget / num_adapters)]. *)
Theorem multi_adapter_claims (budget num_adapters num_threads requests : Z)
    counters ls cs s :
  (0 <= budget)%Z -> (0 < num_adapters)%Z ->
  configure budget num_adapters = Some (requests, counters) ->
  run sub false ls (spawn num_threads requests counters) = Some (cs, s) ->
  (forall adapter_id,
     (Z.of_nat (claims_of adapter_id cs) <= budget / num_adapters)%Z) /\
  (Z.of_nat (length cs) <= num_adapters * (budget / num_adapters))%Z /\
  (joined s = true ->
   (exists t w, workers s !! t = Some w /\ pc w = Returned) ->
   Z.of_nat (length cs) = (num_adapters * (budget / num_adapters))%Z /\
   forall adapter_id, (1 <= Z.of_nat adapter_id <= num_adapters)%Z ->
     Z.of_nat (claims_of adapter_id cs) = (budget / num_adapters)%Z) /\
  (joined s = true -> (0 < num_threads)%Z -> existsb raises ls = false ->
   Z.of_nat (length cs) = (num_adapters * (budget / num_adapters))%Z).
Proof.
  intros Hb Hn Hcfg Hr.
  pose proof (configure_nonneg (num := num) _ _ num_threads _ _ Hb Hcfg) as Hnn0.
  destruct (multi_claims_bounded _ _ _ _ _ _ _ _ _ Hb Hn Hcfg Hr) as [Hsum Hpos].
  apply configure_Some in Hcfg as (_ & -> & ->).
  pose proof (quotient_nonneg _ _ Hb Hn) as Hq.
  pose proof (run_nonneg _ _ _ _ _ _ Hr Hnn0) as [_ Hnn].
  pose proof (run_multi_range _ _ _ _ _ Hr) as Hrange. simpl in Hrange.
  rewrite length_replicate in Hrange.
  assert (forall i, i < Z.to_nat num_adapters ->
            exists n, adapter_counters s !! i = Some n /\ (0 <= n)%Z /\
              (budget / num_adapters)%Z = (n + Z.of_nat (claims_of (i + 1) cs))%Z)
    as Hper.
  { intros i Hi.
    destruct (run_multi_claims _ _ _ _ _ i (budget / num_adapters)%Z Hr)
      as (n & Hn' & Heq); [by apply lookup_replicate_2|].
    exists n. split; [done|]. split; [|done].
    rewrite Forall_lookup in Hnn. exact (Hnn _ _ Hn'). }
  assert (joined s = true ->
          (exists t w, workers s !! t = Some w /\ pc w = Returned) ->
          Z.of_nat (length cs) = (num_adapters * (budget / num_adapters))%Z /\
          forall adapter_id, (1 <= Z.of_nat adapter_id <= num_adapters)%Z ->
            Z.of_nat (claims_of adapter_id cs) = (budget / num_adapters)%Z) as Hdone.
  { intros _ (t & w & Hw & Hpc).
    pose proof (returned_pool_empty _ _ _ _ _ _ _ _ _ _ Hnn0 Hr Hw Hpc) as Hz.
    simpl in Hz. split.
    - rewrite (Forall_zero_sum _ Hz) in Hsum. lia.
    - intros id Hid. destruct (Hper (id - 1)) as (n & Hn' & _ & Heq); [lia|].
      rewrite Forall_lookup in Hz. rewrite <- (Hz _ _ Hn') in Heq.
      replace (id - 1 + 1) with id in Heq by lia. lia. }
  split; [|split; [lia|split; [done|]]].
  - intros id.
    destruct (decide (1 <= id <= Z.to_nat num_adapters)) as [Hin|Hout].
    + destruct (Hper (id - 1)) as (n & _ & Hn0 & Heq); [lia|].
      replace (id - 1 + 1) with id in Heq by lia. lia.
    + rewrite (claims_of_out_of_range _ _ _ Hrange Hout). lia.
  - intros Hj Hw Hno. apply Hdone; [done|]. by eapply some_worker_returned.
Qed.

(** C2, as the code has it.  In single-adapter mode with budget [budget > 0]
    and [num_threads > 0] workers, no execution is longer than
    [4 * budget + 4 * num_threads] steps and none gets stuck before all
    workers have ended, so every execution reaches the joins.  After the
    joins the recorded measurements number at most [budget], and exactly
    [budget] when [predict] never raised. *)
Theorem single_adapter_measurements (budget num_adapters num_threads requests : Z)
    counters ls cs s :
  (0 < budget)%Z -> (0 < num_threads)%Z ->
  configure budget num_adapters = Some (requests, counters) ->
  run sub true ls (spawn num_threads requests counters) = Some (cs, s) ->
  length ls <= 4 * Z.to_nat budget + 4 * Z.to_nat num_threads /\
  (joined s = false -> exists l r, invoke_adapter sub true l s = Some r) /\
  (joined s = true ->
   (Z.of_nat (recorded s) <= budget)%Z /\
   (existsb raises ls = false -> Z.of_nat (recorded s) = budget)).
Proof.
  intros Hb Hw Hcfg Hr.
  assert (0 <= budget)%Z as Hb0 by lia.
  pose proof (configure_nonneg (num := num) _ _ num_threads _ _ Hb0 Hcfg) as Hnn0.
  apply configure_Some in Hcfg as (_ & -> & Hcnt).
  pose proof (run_fuel _ _ _ _ _ _ Hr) as Hfuel. rewrite spawn_fuel in Hfuel.
  unfold quota, pool in Hfuel. simpl in Hfuel.
  split; [lia|]. split.
  { apply progress. eapply run_lock_inv; [exact Hr | apply spawn_lock_inv]. }
  intros Hj.
  destruct (run_recorded _ _ _ _ _ _ _ _ Hr) as [_ Hacc]. specialize (Hacc Hj).
  pose proof (run_pool_sum _ _ _ _ _ _ Hr) as Hsum. simpl in Hsum.
  destruct (run_nonneg _ _ _ _ _ _ Hr Hnn0) as [Hpos _].
  split; [lia|]. intros Hno.
  rewrite (no_raise_no_loss _ _ _ _ _ _ _ _ Hr Hno) in Hacc.
  destruct (some_worker_returned _ _ _ _ _ _ _ _ Hr Hj Hw Hno) as (t & w & Hw0 & Hpc).
  pose proof (returned_pool_empty _ _ _ _ _ _ _ _ _ _ Hnn0 Hr Hw0 Hpc) as Hz.
  apply Forall_zero_sum in Hz. simpl in Hz. lia.
Qed.

(** C3, as the code has it.  For every configuration with a positive
    budget, adapter count and worker count, in either mode, after the joins
    the measurements in [all_latencies] together with the requests reserved
    by workers that died make up the reserved requests; so the measurements
    never outnumber the reservations, and equal them when [predict] never
    raised.  The reservations never exceed the budget. *)
Theorem measurements_match_claims single_adapter
    (budget num_adapters num_threads requests : Z) counters ls cs s :
  (0 < budget)%Z -> (0 < num_adapters)%Z -> (0 < num_threads)%Z ->
  configure budget num_adapters = Some (requests, counters) ->
  run sub single_adapter ls (spawn num_threads requests counters) = Some (cs, s) ->
  joined s = true ->
  recorded s + sum_list_with lost (workers s) = length cs /\
  recorded s <= length cs /\
  (Z.of_nat (length cs) <= budget)%Z /\
  (existsb raises ls = false -> recorded s = length cs).
Proof.
  intros Hb Hn Hw Hcfg Hr Hj.
  assert (0 <= budget)%Z as Hb0 by lia.
  pose proof (configure_nonneg (num := num) _ _ num_threads _ _ Hb0 Hcfg) as Hnn0.
  destruct (run_recorded _ _ _ _ _ _ _ _ Hr) as [_ Hacc]. specialize (Hacc Hj).
  split; [done|]. split; [lia|]. split.
  - destruct single_adapter.
    + apply configure_Some in Hcfg as (_ & -> & _).
      pose proof (run_pool_sum _ _ _ _ _ _ Hr) as Hsum. simpl in Hsum.
      destruct (run_nonneg _ _ _ _ _ _ Hr Hnn0) as [Hpos _]. lia.
    + destruct (multi_claims_bounded _ _ _ _ _ _ _ _ _ Hb0 Hn Hcfg Hr) as [Hle Hpos].
      pose proof (Z.mul_div_le budget num_adapters Hn). lia.
  - intros Hno. rewrite (no_raise_no_loss _ _ _ _ _ _ _ _ Hr Hno) in Hacc. lia.
Qed.

End CountingClaims.

Section Failures.
Context {num response : Type}.
Variable sub : num -> num -> num.

#[local] Abbreviation state := (@state num).
#[local] Abbreviation worker := (@worker num).
#[local] Abbreviation label := (@label num response).

Implicit Types (s : state) (w : worker) (t : nat) (l : label) (ls : list label)
  (cs : list nat) (single_adapter : bool) (counters : list Z).

(** C7, as the code has it.  When [predict] returns, whatever the response
    is, the worker appends the elapsed time to [latencies] and goes back to
    the top of its loop.  When [predict] raises, the worker ends there: the
    elapsed time is not appended, the worker never runs again, and its list
    in [all_latencies] stays empty, so none of its measurements is counted. *)
Theorem returned_requests_are_recorded single_adapter (num_threads requests : Z)
    counters ls cs s t w adapter_id :
  run sub single_adapter ls (spawn num_threads requests counters) = Some (cs, s) ->
  workers s !! t = Some w -> pc w = AtPredict adapter_id ->
  (forall (r : response) start_time stop_time,
     invoke_adapter sub single_adapter (t, Returns r start_time stop_time) s
     = Some (None, goto s t (Worker AtWith (latencies w ++ [sub stop_time start_time])))) /\
  invoke_adapter sub single_adapter ((t, Raises) : label) s
  = Some (None, goto s t (Worker Died (latencies w))) /\
  (forall ls' cs' s',
     run sub single_adapter ls' (goto s t (Worker Died (latencies w))) = Some (cs', s') ->
     workers s' !! t = Some (Worker Died (latencies w)) /\
     all_latencies s' !! t = Some []).
Proof.
  intros Hr Hw Hpc.
  assert (invoke_adapter sub single_adapter ((t, Raises) : label) s
          = Some (None, goto s t (Worker Died (latencies w)))) as Hraise.
  { apply invoke_adapter_step. exists w. split; [done|]. by econstructor. }
  split; [|split; [done|]].
  - intros r start_time stop_time. apply invoke_adapter_step. exists w. split; [done|].
    by econstructor.
  - intros ls' cs' s' Hr'.
    assert (workers s' !! t = Some (Worker Died (latencies w))) as Hdead.
    { eapply run_died_stays; [exact Hr'| |done]. simpl.
      apply list_lookup_insert_eq. by eapply lookup_lt_Some. }
    split; [done|].
    assert (run sub single_adapter [(t, Raises) : label] s
            = Some ([], goto s t (Worker Died (latencies w)))) as Hone
      by (cbn [run]; by rewrite Hraise).
    pose proof (run_app _ _ _ _ _ _ _ _ _ (run_app _ _ _ _ _ _ _ _ _ Hr Hone) Hr') as Hall.
    destruct (run_store_inv _ _ _ _ _ _ Hall (spawn_store_inv _ _ _)) as [_ Hst].
    by rewrite (Hst _ _ Hdead).
Qed.

End Failures.

(** ** The report *)

Section ReportClaims.
Context {num response : Type}.
Variables sub add div : num -> num -> num.
Variable of_int : Z -> num.
Variable is_zero : num -> bool.

#[local] Abbreviation state := (@state num).
#[local] Abbreviation worker := (@worker num).
#[local] Abbreviation label := (@label num response).
#[local] Abbreviation scenario := (benchmark_scenario sub add div of_int is_zero).

Implicit Types (s : state) (w : worker) (t : nat) (l : label) (ls : list label)
  (cs : list nat) (single_adapter : bool) (counters : list Z).

Lemma benchmark_scenario_Some single_adapter (num_threads : Z) ls
    (start_time now now' : num) (requests : Z) counters rep s :
  scenario single_adapter num_threads ls start_time now now' requests counters
  = Some (rep, s) <->
  exists cs,
    run sub single_adapter ls (spawn num_threads requests counters) = Some (cs, s) /\
    joined s = true /\
    rep = summarize sub add div of_int is_zero (all_latencies s) start_time now now'.
Proof.
  unfold benchmark_scenario.
  destruct (run sub single_adapter ls (spawn num_threads requests counters))
    as [[cs s0]|]; simpl.
  - destruct (joined s0) eqn:Hj.
    + split.
      * intros [= <- <-]. by exists cs.
      * intros (cs' & [= <- <-] & _ & ->). done.
    + split; [done|]. intros (cs' & [= <- <-] & Hj' & _). congruence.
  - split; [done|]. by intros (cs' & ? & _).
Qed.

(** If [+] is associative with the integer 0 as unit, the sum of the
    per-worker sums is the sum of all measurements. *)
Lemma total_latency_concat (all : list (list num)) :
  (forall x, add (of_int 0) x = x) ->
  (forall x, add x (of_int 0) = x) ->
  (forall x y z, add x (add y z) = add (add x y) z) ->
  total_latency add of_int all = py_sum add of_int (concat all).
Proof.
  intros Hl Hr Hassoc.
  assert (forall xs x, fold_left add xs x = add x (py_sum add of_int xs)) as Hfold.
  { unfold py_sum. induction xs as [|y xs IH]; intros x; simpl.
    - by rewrite Hr.
    - rewrite (IH (add x y)), (IH (add (of_int 0) y)), Hl. by rewrite Hassoc. }
  unfold total_latency. induction all as [|x all IH]; simpl; [done|].
  assert (forall xs ys, py_sum add of_int (xs ++ ys)
            = add (py_sum add of_int xs) (py_sum add of_int ys)) as Happ.
  { intros xs ys. unfold py_sum at 1. rewrite fold_left_app. apply Hfold. }
  unfold py_sum at 1. simpl. rewrite Hl, Hfold, Happ. f_equal. exact IH.
Qed.

(** C5.  With [num_threads = 0] there is no worker thread and no step to
    schedule, so the loop over the joins ends at once; the only complete
    execution is the empty one, and it ends in [ZeroDivisionError] without
    printing a result, whatever the mode, the counters and the clock. *)
Theorem zero_workers_rejected single_adapter ls (start_time now now' : num)
    (requests : Z) counters :
  workers (@spawn num 0 requests counters) = [] /\
  (forall l, invoke_adapter sub single_adapter l (spawn 0 requests counters) = None) /\
  scenario single_adapter 0 ls start_time now now' requests counters
  = match ls with
    | [] => Some (ZeroDivisionError, spawn 0 requests counters)
    | _ :: _ => None
    end.
Proof.
  split; [done|]. split; [by intros [t a]|].
  destruct ls as [|[t a] ls]; done.
Qed.

(** C6, as the code has it.  With a budget of zero and at least one worker,
    every worker finds the pool empty on its first pass and returns without
    a request, so nothing is measured; the run then ends in
    [ZeroDivisionError] when the mean is computed, and prints no result. *)
Theorem zero_budget_divides_by_zero single_adapter (num_adapters num_threads : Z) ls
    (start_time now now' : num) (requests : Z) counters rep s :
  (0 < num_threads)%Z ->
  configure 0 num_adapters = Some (requests, counters) ->
  scenario single_adapter num_threads ls start_time now now' requests counters
  = Some (rep, s) ->
  rep = ZeroDivisionError /\
  recorded s = 0 /\
  length (workers s) = Z.to_nat num_threads /\
  Forall (fun w => w = Worker Returned []) (workers s).
Proof.
  intros Hw Hcfg (cs & Hr & Hj & ->)%benchmark_scenario_Some.
  apply configure_Some in Hcfg as (Hn & -> & ->).
  assert (exhausted single_adapter
            (@spawn num num_threads 0
               (replicate (Z.to_nat num_adapters) (0 / num_adapters)%Z)) = true) as Hex.
  { unfold exhausted. destruct single_adapter; [done|]. simpl.
    rewrite Z.div_0_l by done.
    by rewrite (proj2 (remaining_adapters_nil _)) by (by apply Forall_replicate). }
  destruct (run_exhausted _ _ _ _ _ _ Hr Hex) as (-> & _).
  pose proof (run_reserved _ _ _ _ _ _ Hr) as Hres.
  rewrite spawn_reserved in Hres. simpl in Hres.
  pose proof (run_store_inv _ _ _ _ _ _ Hr (spawn_store_inv _ _ _)) as Hst.
  pose proof (kept_lost_reserved (workers s)) as Hle.
  assert (recorded s = 0) as Hrec by (rewrite (recorded_kept s Hst); lia).
  split; [|split; [done|split]].
  - unfold summarize. fold (recorded s). by rewrite Hrec.
  - rewrite (run_length_workers _ _ _ _ _ _ Hr). simpl. apply length_replicate.
  - apply sum_list_with_zero in Hres.
    apply Is_true_true, forallb_True in Hj.
    assert (Forall (fun w => reserved w = 0 /\ ended w) (workers s)) as Hboth
      by (by apply Forall_and).
    clear -Hboth.
    eapply Forall_impl; [exact Hboth|]. intros [p lat]. unfold reserved, ended. simpl.
    intros [Hzero Hend]. destruct lat; [|simpl in Hzero; lia].
    destruct p; simpl in *; done.
Qed.

(** C8.  When a run has completed with at least one measurement, the count
    is the sum of the lengths of the per-worker lists (the number of all
    measurements, which is what the returned workers recorded); unless the
    elapsed time is zero, the values printed are the elapsed time, the sum
    of the per-worker sums divided by the count, and the count divided by
    the time elapsed since the run started. *)
Theorem report_formulas single_adapter (num_threads : Z) ls
    (start_time now now' : num) (requests : Z) counters rep s :
  scenario single_adapter num_threads ls start_time now now' requests counters
  = Some (rep, s) ->
  0 < recorded s ->
  recorded s = sum_list (length <$> all_latencies s) /\
  recorded s = length (concat (all_latencies s)) /\
  recorded s = sum_list_with kept (workers s) /\
  rep = (if is_zero (sub now start_time) then ZeroDivisionError
         else Printed
                (Result (sub now' start_time)
                   (div (py_sum add of_int (py_sum add of_int <$> all_latencies s))
                        (of_int (Z.of_nat (recorded s))))
                   (div (of_int (Z.of_nat (recorded s))) (sub now start_time)))).
Proof.
  intros (cs & Hr & Hj & ->)%benchmark_scenario_Some Hpos.
  split; [done|]. split; [apply total_requests_made_concat|]. split.
  - apply recorded_kept. eapply run_store_inv; [exact Hr | apply spawn_store_inv].
  - unfold summarize. fold (recorded s).
    destruct (Nat.eqb_spec (recorded s) 0) as [Hz|_]; [lia|]. done.
Qed.

End ReportClaims.


(** * The claims on concrete runs *)

Ltac evaluate := vm_compute; reflexivity.

(** C9 on a run that stops while worker 0 waits for its response and
    worker 1 is inside the block. *)
Lemma lock_only_held_in_block_witness :
  run Qminus true overlap_schedule (spawn 2 2 [2%Z]) = Some ([1], overlap_final) /\
  counters_lock overlap_final = Some 1 /\
  workers overlap_final !! 0 = Some (Worker (AtPredict 1) []) /\
  counters_lock overlap_final <> Some 0.
Proof.
  assert (run Qminus true overlap_schedule (spawn 2 2 [2%Z])
          = Some ([1], overlap_final)) as Hrun by evaluate.
  split; [exact Hrun|]. split; [reflexivity|]. split; [reflexivity|].
  destruct (lock_only_held_in_block Qminus true 2 2 [2%Z] overlap_schedule
              [1] overlap_final Hrun) as (_ & _ & Hfree).
  exact (Hfree 0 (Worker (AtPredict 1) []) 1 eq_refl eq_refl).
Defined.

(** C10 on a complete single-adapter run: [total_requests] is used up and
    [adapter_counters] is as it was. *)
Lemma mode_isolation_witness :
  run Qminus true quiet_schedule (spawn 2 2 [2%Z]) = Some (quiet_claims, quiet_final) /\
  total_requests quiet_final = 0%Z /\
  adapter_counters quiet_final = [2%Z].
Proof.
  assert (run Qminus true quiet_schedule (spawn 2 2 [2%Z])
          = Some (quiet_claims, quiet_final)) as Hrun by evaluate.
  split; [exact Hrun|]. split; [reflexivity|].
  exact (proj1 (mode_isolation Qminus true 2 2 [2%Z] quiet_schedule
                  quiet_claims quiet_final Hrun) eq_refl).
Defined.

(** C4 on a single-adapter run cut in two. *)
Lemma pool_invariant_witness :
  configure 2 1 = Some (2%Z, [2%Z]) /\
  run Qminus true overlap_schedule (spawn 2 2 [2%Z]) = Some ([1], overlap_final) /\
  run Qminus true (drop 4 quiet_schedule) overlap_final = Some ([1], quiet_final) /\
  nonneg quiet_final /\
  sum_Z (pool true quiet_final) = (sum_Z (pool true overlap_final) - 1)%Z /\
  (exhausted true quiet_final = true <-> Forall (eq 0%Z) (pool true quiet_final)).
Proof.
  assert (configure 2 1 = Some (2%Z, [2%Z])) as Hcfg by reflexivity.
  assert (run Qminus true overlap_schedule (spawn 2 2 [2%Z])
          = Some ([1], overlap_final)) as Hrun by evaluate.
  assert (run Qminus true (drop 4 quiet_schedule) overlap_final
          = Some ([1], quiet_final)) as Hrest by evaluate.
  split; [exact Hcfg|]. split; [exact Hrun|]. split; [exact Hrest|].
  destruct (pool_invariant Qminus true 2 1 2 2 [2%Z] overlap_schedule [1] overlap_final
              (drop 4 quiet_schedule) [1] quiet_final ltac:(lia) Hcfg Hrun Hrest)
    as (_ & Hnn & Hsum & _ & _ & _ & Hzero).
  split; [exact Hnn|]. split; [exact Hsum | exact Hzero].
Defined.

(** C1 on a complete multi-adapter run without exceptions: budget 3 and two
    adapters give one request per adapter. *)
Lemma multi_adapter_claims_witness :
  configure 3 2 = Some (3%Z, [1%Z; 1%Z]) /\
  run Qminus false multi_schedule (spawn 2 3 [1%Z; 1%Z])
  = Some (multi_claims, multi_final) /\
  joined multi_final = true /\
  (forall adapter_id, (Z.of_nat (claims_of adapter_id multi_claims) <= 3 / 2)%Z) /\
  Z.of_nat (length multi_claims) = (2 * (3 / 2))%Z.
Proof.
  assert (configure 3 2 = Some (3%Z, [1%Z; 1%Z])) as Hcfg by reflexivity.
  assert (run Qminus false multi_schedule (spawn 2 3 [1%Z; 1%Z])
          = Some (multi_claims, multi_final)) as Hrun by evaluate.
  split; [exact Hcfg|]. split; [exact Hrun|]. split; [reflexivity|].
  destruct (multi_adapter_claims Qminus 3 2 2 3 [1%Z; 1%Z] multi_schedule
              multi_claims multi_final ltac:(lia) ltac:(lia) Hcfg Hrun)
    as (Hper & _ & _ & Hall).
  split; [exact Hper|]. apply Hall; [reflexivity | lia | reflexivity].
Defined.

(** C2 on a complete single-adapter run without exceptions. *)
Lemma single_adapter_measurements_witness :
  configure 2 1 = Some (2%Z, [2%Z]) /\
  run Qminus true quiet_schedule (spawn 2 2 [2%Z]) = Some (quiet_claims, quiet_final) /\
  joined quiet_final = true /\
  length quiet_schedule <= 4 * Z.to_nat 2 + 4 * Z.to_nat 2 /\
  Z.of_nat (recorded quiet_final) = 2%Z.
Proof.
  assert (configure 2 1 = Some (2%Z, [2%Z])) as Hcfg by reflexivity.
  assert (run Qminus true quiet_schedule (spawn 2 2 [2%Z])
          = Some (quiet_claims, quiet_final)) as Hrun by evaluate.
  split; [exact Hcfg|]. split; [exact Hrun|]. split; [reflexivity|].
  destruct (single_adapter_measurements Qminus 2 1 2 2 [2%Z] quiet_schedule
              quiet_claims quiet_final ltac:(lia) ltac:(lia) Hcfg Hrun)
    as (Hlen & _ & Hend).
  split; [exact Hlen|]. apply (Hend eq_refl). reflexivity.
Defined.

(** C3 on a complete run in which one request raises. *)
Lemma measurements_match_claims_witness :
  configure 2 1 = Some (2%Z, [2%Z]) /\
  run Qminus true mixed_schedule (spawn 2 2 [2%Z]) = Some (mixed_claims, mixed_final) /\
  joined mixed_final = true /\
  recorded mixed_final + sum_list_with lost (workers mixed_final) = length mixed_claims /\
  (Z.of_nat (length mixed_claims) <= 2)%Z.
Proof.
  assert (configure 2 1 = Some (2%Z, [2%Z])) as Hcfg by reflexivity.
  assert (run Qminus true mixed_schedule (spawn 2 2 [2%Z])
          = Some (mixed_claims, mixed_final)) as Hrun by evaluate.
  split; [exact Hcfg|]. split; [exact Hrun|]. split; [reflexivity|].
  destruct (measurements_match_claims Qminus true 2 1 2 2 [2%Z] mixed_schedule
              mixed_claims mixed_final ltac:(lia) ltac:(lia) ltac:(lia) Hcfg Hrun eq_refl)
    as (Hacc & _ & Hle & _).
  split; [exact Hacc | exact Hle].
Defined.

(** C7 on a worker whose second request is in flight: a response that is
    not a success is recorded, an exception is not. *)
Lemma returned_requests_are_recorded_witness :
  run Qminus true second_request_schedule (spawn 1 2 [2%Z])
  = Some ([1; 1], second_request_final) /\
  workers second_request_final !! 0 = Some (Worker (AtPredict 1) [2%Q]) /\
  invoke_adapter Qminus true (0, Returns false 4%Q 9%Q) second_request_final
  = Some (None, goto second_request_final 0
                  (Worker AtWith ([2%Q] ++ [Qminus 9 4]))) /\
  invoke_adapter Qminus true ((0, Raises) : @label Q bool) second_request_final
  = Some (None, goto second_request_final 0 (Worker Died [2%Q])).
Proof.
  assert (run Qminus true second_request_schedule (spawn 1 2 [2%Z])
          = Some ([1; 1], second_request_final)) as Hrun by evaluate.
  split; [exact Hrun|]. split; [reflexivity|].
  destruct (returned_requests_are_recorded (response := bool) Qminus true 1 2 [2%Z]
              second_request_schedule [1; 1] second_request_final 0
              (Worker (AtPredict 1) [2%Q]) 1 Hrun eq_refl eq_refl)
    as (Hret & Hraise & _).
  split; [exact (Hret false 4%Q 9%Q) | exact Hraise].
Defined.

(** C6 on two workers, two adapters and a budget of zero. *)
Lemma zero_budget_divides_by_zero_witness :
  configure 0 2 = Some (0%Z, [0%Z; 0%Z]) /\
  scenario_Q false 2 idle_schedule 10%Q 20%Q 21%Q 0 [0%Z; 0%Z]
  = Some (ZeroDivisionError, idle_final) /\
  recorded idle_final = 0 /\
  Forall (fun w => w = Worker Returned []) (workers idle_final).
Proof.
  assert (configure 0 2 = Some (0%Z, [0%Z; 0%Z])) as Hcfg by reflexivity.
  assert (scenario_Q false 2 idle_schedule 10%Q 20%Q 21%Q 0 [0%Z; 0%Z]
          = Some (ZeroDivisionError, idle_final)) as Hrun by evaluate.
  split; [exact Hcfg|]. split; [exact Hrun|].
  destruct (zero_budget_divides_by_zero Qminus Qplus Qdiv inject_Z
              (fun q => Qeq_bool q 0) false 2 2 idle_schedule 10%Q 20%Q 21%Q
              0 [0%Z; 0%Z] ZeroDivisionError idle_final ltac:(lia) Hcfg Hrun)
    as (_ & Hrec & _ & Hall).
  split; [exact Hrec | exact Hall].
Defined.

(** C8 on a complete single-adapter run with latencies 2 and 5 that took
    10 units of time. *)
Lemma report_formulas_witness :
  scenario_Q true 2 quiet_schedule 10%Q 20%Q 21%Q 2 [2%Z]
  = Some (Printed (Result 11%Q (7 # 2)%Q (2 # 10)%Q), quiet_final) /\
  0 < recorded quiet_final /\
  recorded quiet_final = length (concat (all_latencies quiet_final)) /\
  Printed (Result 11%Q (7 # 2)%Q (2 # 10)%Q)
  = Printed
      (Result (Qminus 21 10)
         (Qdiv (py_sum Qplus inject_Z (py_sum Qplus inject_Z <$> all_latencies quiet_final))
               (inject_Z (Z.of_nat (recorded quiet_final))))
         (Qdiv (inject_Z (Z.of_nat (recorded quiet_final))) (Qminus 20 10))).
Proof.
  assert (scenario_Q true 2 quiet_schedule 10%Q 20%Q 21%Q 2 [2%Z]
          = Some (Printed (Result 11%Q (7 # 2)%Q (2 # 10)%Q), quiet_final))
    as Hrun by evaluate.
  assert (0 < recorded quiet_final) as Hpos by (vm_compute; lia).
  split; [exact Hrun|]. split; [exact Hpos|].
  destruct (report_formulas Qminus Qplus Qdiv inject_Z (fun q => Qeq_bool q 0)
              true 2 quiet_schedule 10%Q 20%Q 21%Q 2 [2%Z] _ quiet_final Hrun Hpos)
    as (_ & Hcat & _ & Hrep).
  split; [exact Hcat | exact Hrep].
Defined.

(** ** Where the claims fail as they were stated *)

(** C1 as stated fails: with one adapter, a budget of two and one worker
    whose first request raises, the run is over after one reservation, not
    [1 * (2 / 1) = 2]. *)
Lemma multi_adapter_claims_counterexample :
  configure 2 1 = Some (2%Z, [2%Z]) /\
  run Qminus false crash_schedule (spawn 1 2 [2%Z]) = Some (crash_claims, crash_final) /\
  joined crash_final = true /\
  Z.of_nat (length crash_claims) <> (1 * (2 / 1))%Z.
Proof.
  split; [reflexivity|]. split; [evaluate|]. split; [reflexivity|].
  vm_compute. discriminate.
Qed.

(** C2 as stated fails: with a budget of one and one worker whose request
    raises, the run is over with no measurement at all, not one. *)
Lemma single_adapter_measurements_counterexample :
  configure 1 1 = Some (1%Z, [1%Z]) /\
  run Qminus true crash_schedule (spawn 1 1 [1%Z]) = Some ([1], crash_single_final) /\
  joined crash_single_final = true /\
  Z.of_nat (recorded crash_single_final) <> 1%Z.
Proof.
  split; [reflexivity|]. split; [evaluate|]. split; [reflexivity|].
  vm_compute. discriminate.
Qed.

(** C3 as stated fails: two requests are reserved, one of them raises, and
    a single measurement is found after the joins. *)
Lemma measurements_match_claims_counterexample :
  configure 2 1 = Some (2%Z, [2%Z]) /\
  run Qminus true mixed_schedule (spawn 2 2 [2%Z]) = Some (mixed_claims, mixed_final) /\
  joined mixed_final = true /\
  length mixed_claims = 2 /\
  recorded mixed_final = 1 /\
  recorded mixed_final <> length mixed_claims.
Proof.
  split; [reflexivity|]. split; [evaluate|]. split; [reflexivity|].
  split; [reflexivity|]. split; [reflexivity|]. vm_compute. discriminate.
Qed.

(** C7 as stated fails: a worker with one measurement has a second request
    in flight; when that request raises, the worker ends with its list of
    latencies unchanged, nothing can be scheduled any more, and the main
    thread finds no measurement at all. *)
Lemma failed_request_not_recorded_counterexample :
  run Qminus true second_request_schedule (spawn 1 2 [2%Z])
  = Some ([1; 1], second_request_final) /\
  workers second_request_final !! 0 = Some (Worker (AtPredict 1) [2%Q]) /\
  exists s',
    invoke_adapter Qminus true ((0, Raises) : @label Q bool) second_request_final = Some (None, s') /\
    workers s' !! 0 = Some (Worker Died [2%Q]) /\
    joined s' = true /\
    recorded s' = 0 /\
    forall l : @label Q bool, invoke_adapter Qminus true l s' = None.
Proof.
  split; [evaluate|]. split; [reflexivity|].
  eexists. split; [reflexivity|]. split; [reflexivity|]. split; [reflexivity|].
  split; [reflexivity|].
  intros [[|t] a]; [by destruct a | reflexivity].
Qed.

(** C6 as stated fails: with a budget of zero, one adapter and two workers
    in single-adapter mode, both workers return at once with empty lists,
    and the run ends in [ZeroDivisionError], not in a result. *)
Lemma zero_budget_result_counterexample :
  configure 0 1 = Some (0%Z, [0%Z]) /\
  run Qminus true idle_schedule (spawn 2 0 [0%Z]) = Some ([], idle_single_final) /\
  joined idle_single_final = true /\
  all_latencies idle_single_final = [[]; []] /\
  scenario_Q true 2 idle_schedule 10%Q 20%Q 21%Q 0 [0%Z]
  = Some (ZeroDivisionError, idle_single_final).
Proof.
  split; [reflexivity|]. split; [evaluate|]. split; [reflexivity|].
  split; [reflexivity | evaluate].
Qed.

(** * Further properties of the benchmark cell *)

Ltac step_cases H :=
  destruct H as [Hpc Hlk|? ? ? ? Hpc Hb|? ? ? Hpc Hb|? Hpc|Hpc|? ? ? ? Hpc|? Hpc|Hpc].

Section Benchmark.
Context {num response : Type}.
Variable sub : num -> num -> num.

#[local] Abbreviation state := (@state num).
#[local] Abbreviation worker := (@worker num).
#[local] Abbreviation label := (@label num response).

Implicit Types (s : state) (w : worker) (t : nat) (l : label) (ls : list label)
  (a : action num response) (c : option nat) (cs : list nat)
  (single_adapter : bool) (counters : list Z).

(** Only the pass through the block that reserves a request changes a
    counter. *)
Lemma step_counters_changed single_adapter s t w a c s' :
  step sub single_adapter s t w a c s' ->
  total_requests s' <> total_requests s \/ adapter_counters s' <> adapter_counters s ->
  pc w = InBody /\ exists adapter_id, c = Some adapter_id.
Proof.
  intros Hstep Hch. step_cases Hstep; simpl in Hch; try (by destruct Hch).
  - eauto.
  - exfalso. destruct single_adapter.
    + rewrite with_body_single in Hb. case_match; simplify_eq. by destruct Hch.
    + apply with_body_multi_break in Hb as (-> & -> & _). by destruct Hch.
Qed.

Lemma step_lock_kept_in_body single_adapter s t w a c s' :
  step sub single_adapter s t w a c s' -> pc w = InBody ->
  counters_lock s' = counters_lock s.
Proof. intros Hstep Hin. step_cases Hstep; simpl; congruence. Qed.

(** The counters are protected by the lock: at any point of a run at most
    one worker is inside the [with] block, and a step that changes
    [total_requests] or [adapter_counters] is taken by the thread that holds
    [counters_lock] before and after the step. *)
Theorem counters_guarded_by_lock single_adapter (num_threads requests : Z)
    counters ls cs s :
  run sub single_adapter ls (spawn num_threads requests counters) = Some (cs, s) ->
  (forall t1 w1 t2 w2,
     workers s !! t1 = Some w1 -> in_block (pc w1) = true ->
     workers s !! t2 = Some w2 -> in_block (pc w2) = true -> t1 = t2) /\
  (forall t a c s',
     invoke_adapter sub single_adapter (t, a) s = Some (c, s') ->
     total_requests s' <> total_requests s \/
       adapter_counters s' <> adapter_counters s ->
     counters_lock s = Some t /\ counters_lock s' = Some t).
Proof.
  intros Hr.
  destruct (run_lock_inv _ _ _ _ _ _ Hr (spawn_lock_inv _ _ _)) as [Hown Hinv].
  split.
  - intros t1 w1 t2 w2 Hw1 Hin1 Hw2 Hin2.
    apply (Hinv _ _ Hw1) in Hin1. apply (Hinv _ _ Hw2) in Hin2. congruence.
  - intros t a c s' (w & Hw & Hstep)%invoke_adapter_step Hch.
    destruct (step_counters_changed _ _ _ _ _ _ _ Hstep Hch) as [Hpc _].
    assert (counters_lock s = Some t) as Hlk
      by (apply (Hinv _ _ Hw); by rewrite Hpc).
    split; [done|]. by rewrite (step_lock_kept_in_body _ _ _ _ _ _ _ Hstep Hpc).
Qed.

(** In a multi-adapter run, from whatever counters it starts, the list of
    counters keeps its length, every reserved adapter is one of
    [1 .. len(adapter_counters)], and for every adapter the remaining count
    plus the number of times it was reserved is its initial count: no unit
    of work is handed out twice. *)
Theorem adapter_quota_conservation (num_threads requests : Z) counters ls cs s :
  run sub false ls (spawn num_threads requests counters) = Some (cs, s) ->
  length (adapter_counters s) = length counters /\
  Forall (fun adapter_id => 1 <= adapter_id <= length counters) cs /\
  (forall i count, counters !! i = Some count ->
     exists count', adapter_counters s !! i = Some count' /\
       count = (count' + Z.of_nat (claims_of (i + 1) cs))%Z) /\
  sum_Z counters = (sum_Z (adapter_counters s) + Z.of_nat (length cs))%Z.
Proof.
  intros Hr. split; [exact (run_length_counters _ _ _ _ _ _ Hr)|].
  split; [exact (run_multi_range _ _ _ _ _ Hr)|]. split.
  - intros i n Hi. exact (run_multi_claims _ _ _ _ _ _ _ Hr Hi).
  - exact (run_pool_sum _ _ _ _ _ _ Hr).
Qed.

(** In a single-adapter run, from whatever value [total_requests] starts,
    every request goes to adapter 1, and what is left of [total_requests]
    plus the requests reserved is the initial value. *)
Theorem single_adapter_targets (num_threads requests : Z) counters ls cs s :
  run sub true ls (spawn num_threads requests counters) = Some (cs, s) ->
  Forall (eq 1) cs /\
  requests = (total_requests s + Z.of_nat (length cs))%Z /\
  (requests <= 0 -> cs = [] /\ total_requests s = requests)%Z.
Proof.
  intros Hr. split; [exact (run_single_claims _ _ _ _ _ Hr)|].
  pose proof (run_pool_sum _ _ _ _ _ _ Hr) as Hsum. simpl in Hsum.
  split; [lia|]. intros Hle.
  assert (exhausted true (@spawn num num_threads requests counters) = true) as Hex.
  { unfold exhausted. simpl. destruct (Z.ltb_spec 0 requests); [lia|done]. }
  by destruct (run_exhausted _ _ _ _ _ _ Hr Hex) as (-> & -> & _).
Qed.

(** A multi-adapter execution is never longer than four steps per request
    that the counters allow plus four per worker, and it is never stuck
    before every worker has ended. *)
Theorem multi_adapter_terminates (budget num_adapters num_threads requests : Z)
    counters ls cs s :
  (0 <= budget)%Z -> (0 < num_adapters)%Z ->
  configure budget num_adapters = Some (requests, counters) ->
  run sub false ls (spawn num_threads requests counters) = Some (cs, s) ->
  length ls <= 4 * Z.to_nat (num_adapters * (budget / num_adapters))
               + 4 * Z.to_nat num_threads /\
  (joined s = false -> exists l r, invoke_adapter sub false l s = Some r).
Proof.
  intros Hb Hn Hcfg Hr. split.
  - pose proof (run_fuel _ _ _ _ _ _ Hr) as Hfuel. rewrite spawn_fuel in Hfuel.
    apply configure_Some in Hcfg as (_ & -> & ->).
    assert (quota false (@spawn num num_threads budget
              (replicate (Z.to_nat num_adapters) (budget / num_adapters)%Z))
            = Z.to_nat (num_adapters * (budget / num_adapters))) as Hq.
    { unfold quota, pool. simpl.
      pose proof (quotient_nonneg _ _ Hb Hn) as Hpos.
      rewrite Z2Nat.inj_mul by lia.
      generalize (Z.to_nat num_adapters). intros n.
      induction n as [|n IH]; simpl; [done|]. rewrite IH. lia. }
    rewrite Hq in Hfuel. lia.
  - apply progress. eapply run_lock_inv; [exact Hr | apply spawn_lock_inv].
Qed.

End Benchmark.

Section Liveness.
Context {num response : Type}.
Variable sub : num -> num -> num.

#[local] Abbreviation state := (@state num).
#[local] Abbreviation worker := (@worker num).
#[local] Abbreviation label := (@label num response).

Implicit Types (s : state) (w : worker) (t : nat) (l : label) (ls : list label)
  (a : action num response) (c : option nat) (cs : list nat)
  (single_adapter : bool) (counters : list Z).

(** A state in which some worker has not ended has a step that is not an
    exception. *)
Lemma progress_quiet (r0 : response) (t0 : num) single_adapter s :
  lock_inv s -> joined s = false ->
  exists t a w c s',
    workers s !! t = Some w /\ step sub single_adapter s t w a c s' /\
    raises ((t, a) : label) = false.
Proof.
  intros [Hown Hinv] (t & w & Hw & Hend)%forallb_false_lookup.
  destruct (counters_lock s) as [h|] eqn:Hlk.
  - destruct (Hown _ eq_refl) as [wh Hwh].
    pose proof (proj2 (Hinv _ _ Hwh) eq_refl) as Hin.
    destruct (pc wh) eqn:Hpc; try done.
    + destruct (with_body_first single_adapter (total_requests s) (adapter_counters s))
        as [[[[id|] r'] ac'] Hb].
      * exists h, (Body 0), wh. do 2 eexists. split; [done|]. split; [|done].
        by econstructor.
      * exists h, (Body 0), wh. do 2 eexists. split; [done|]. split; [|done].
        by econstructor.
    + exists h, Release, wh. do 2 eexists. split; [done|]. split; [|done].
      by econstructor.
    + exists h, Release, wh. do 2 eexists. split; [done|]. split; [|done].
      by econstructor.
  - pose proof (Hinv _ _ Hw) as Hme. unfold ended in Hend.
    destruct (pc w) eqn:Hpc; simpl in Hme; try done;
      try (destruct Hme as [Hme _]; by specialize (Hme eq_refl)).
    + exists t, Acquire, w. do 2 eexists. split; [done|]. split; [|done].
      by econstructor.
    + exists t, (Returns r0 t0 t0), w. do 2 eexists. split; [done|]. split; [|done].
      by econstructor.
    + exists t, Extend, w. do 2 eexists. split; [done|]. split; [|done].
      by econstructor.
Qed.

Lemma completion_from (r0 : response) (t0 : num) single_adapter (n : nat) s :
  fuel single_adapter s <= n -> lock_inv s ->
  exists ls cs s',
    run sub single_adapter ls s = Some (cs, s') /\ joined s' = true /\
    existsb raises ls = false.
Proof.
  revert s. induction n as [|n IH]; intros s Hfuel Hlock.
  - destruct (joined s) eqn:Hj; [by exists [], [], s|].
    destruct (progress_quiet r0 t0 single_adapter s Hlock Hj)
      as (t & a & w & c & s1 & Hw & Hstep & _).
    pose proof (step_fuel _ _ _ _ _ _ _ _ Hw Hstep). lia.
  - destruct (joined s) eqn:Hj; [by exists [], [], s|].
    destruct (progress_quiet r0 t0 single_adapter s Hlock Hj)
      as (t & a & w & c & s1 & Hw & Hstep & Hquiet).
    pose proof (step_fuel _ _ _ _ _ _ _ _ Hw Hstep) as Hlt.
    destruct (IH s1) as (ls1 & cs1 & s' & Hr1 & Hj' & Hq1);
      [lia | by eapply step_lock_inv |].
    exists ((t, a) :: ls1), (option_list c ++ cs1), s'. split; [|split; [done|]].
    + cbn [run].
      rewrite (proj2 (invoke_adapter_step sub single_adapter t a s c s1))
        by (by exists w).
      simpl. by rewrite Hr1.
    + simpl. by rewrite Hquiet, Hq1.
Qed.

(** No reachable state is a dead end: whatever has been scheduled so far,
    the run can be continued, without any exception of [predict], until
    every worker has ended.  ([r0] and [t0] are any response and any clock
    reading.) *)
Theorem every_run_can_complete (r0 : response) (t0 : num) single_adapter
    (num_threads requests : Z) counters ls cs s :
  run sub single_adapter ls (spawn num_threads requests counters) = Some (cs, s) ->
  exists ls' cs' s',
    run sub single_adapter ls' s = Some (cs', s') /\ joined s' = true /\
    existsb raises ls' = false.
Proof.
  intros Hr. apply (completion_from r0 t0 single_adapter (fuel single_adapter s)); [done|].
  eapply run_lock_inv; [exact Hr | apply spawn_lock_inv].
Qed.




End Liveness.

Section UsedUp.
Context {num response : Type}.
Variable sub : num -> num -> num.

#[local] Abbreviation state := (@state num).
#[local] Abbreviation worker := (@worker num).
#[local] Abbreviation label := (@label num response).

Implicit Types (s : state) (w : worker) (t : nat) (l : label) (ls : list label)
  (cs : list nat) (single_adapter : bool) (counters : list Z).

(** A run that starts on an empty pool reserves nothing, leaves the counters
    alone, records nothing, and all its workers return empty-handed. *)
Lemma exhausted_run_idle single_adapter (num_threads requests : Z) counters ls cs s :
  exhausted single_adapter (@spawn num num_threads requests counters) = true ->
  run sub single_adapter ls (spawn num_threads requests counters) = Some (cs, s) ->
  cs = [] /\ total_requests s = requests /\ adapter_counters s = counters /\
  recorded s = 0 /\
  (joined s = true -> Forall (fun w => w = Worker Returned []) (workers s)).
Proof.
  intros Hex Hr.
  destruct (run_exhausted _ _ _ _ _ _ Hr Hex) as (-> & Hreq & Hcnt).
  pose proof (run_reserved _ _ _ _ _ _ Hr) as Hres.
  rewrite spawn_reserved in Hres. simpl in Hres.
  pose proof (run_store_inv _ _ _ _ _ _ Hr (spawn_store_inv _ _ _)) as Hst.
  pose proof (kept_lost_reserved (workers s)) as Hle.
  split; [done|]. split; [done|]. split; [done|].
  split; [rewrite (recorded_kept s Hst); lia|].
  intros Hj. apply sum_list_with_zero in Hres.
  apply Is_true_true, forallb_True in Hj.
  assert (Forall (fun w => reserved w = 0 /\ ended w) (workers s)) as Hboth
    by (by apply Forall_and).
  clear -Hboth.
  eapply Forall_impl; [exact Hboth|]. intros [p lat]. unfold reserved, ended. simpl.
  intros [Hzero Hend]. destruct lat; [|simpl in Hzero; lia].
  destruct p; simpl in *; done.
Qed.

(** A complete run without exceptions and with at least one worker uses the
    pool up and records every request it reserved. *)
Lemma quiet_run_drains single_adapter (num_threads requests : Z) counters ls cs s :
  nonneg (@spawn num num_threads requests counters) ->
  (0 < num_threads)%Z ->
  run sub single_adapter ls (spawn num_threads requests counters) = Some (cs, s) ->
  joined s = true -> existsb raises ls = false ->
  recorded s = length cs /\
  Forall (eq 0%Z) (pool single_adapter s) /\
  sum_Z (pool single_adapter (@spawn num num_threads requests counters))
  = Z.of_nat (length cs).
Proof.
  intros Hnn Hw Hr Hj Hno.
  destruct (run_recorded _ _ _ _ _ _ _ _ Hr) as [_ Hacc]. specialize (Hacc Hj).
  rewrite (no_raise_no_loss _ _ _ _ _ _ _ _ Hr Hno) in Hacc.
  destruct (some_worker_returned _ _ _ _ _ _ _ _ Hr Hj Hw Hno) as (t & w & Hw0 & Hpc).
  pose proof (returned_pool_empty _ _ _ _ _ _ _ _ _ _ Hnn Hr Hw0 Hpc) as Hz.
  pose proof (run_pool_sum _ _ _ _ _ _ Hr) as Hsum.
  rewrite (Forall_zero_sum _ Hz) in Hsum.
  split; [lia|]. split; [done|lia].
Qed.

End UsedUp.

Section ReportExtras.
Context {num response : Type}.
Variables sub add div : num -> num -> num.
Variable of_int : Z -> num.
Variable is_zero : num -> bool.

#[local] Abbreviation state := (@state num).
#[local] Abbreviation worker := (@worker num).
#[local] Abbreviation label := (@label num response).
#[local] Abbreviation scenario := (benchmark_scenario sub add div of_int is_zero).
#[local] Abbreviation script := (run_benchmarks sub add div of_int is_zero).

Implicit Types (s : state) (w : worker) (t : nat) (l : label) (ls : list label)
  (cs : list nat) (single_adapter : bool) (counters : list Z).

Lemma summarize_nothing (all : list (list num)) (start_time now now' : num) :
  total_requests_made all = 0 ->
  summarize sub add div of_int is_zero all start_time now now' = ZeroDivisionError.
Proof. unfold summarize. by intros ->. Qed.

(** Whenever the pool is already empty when [benchmark_scenario] is called
    (whatever the number of workers), every complete execution issues no
    request, leaves [total_requests] and [adapter_counters] as they were,
    has every worker return with an empty list, and ends in
    [ZeroDivisionError]. *)
Theorem empty_pool_divides_by_zero single_adapter (num_threads : Z) ls
    (start_time now now' : num) (requests : Z) counters rep s :
  exhausted single_adapter (@spawn num num_threads requests counters) = true ->
  scenario single_adapter num_threads ls start_time now now' requests counters
  = Some (rep, s) ->
  rep = ZeroDivisionError /\
  total_requests s = requests /\ adapter_counters s = counters /\
  Forall (fun w => w = Worker Returned []) (workers s).
Proof.
  intros Hex (cs & Hr & Hj & ->)%benchmark_scenario_Some.
  destruct (exhausted_run_idle _ _ _ _ _ _ _ _ Hex Hr) as (_ & Hreq & Hcnt & Hrec & Hall).
  split; [by apply summarize_nothing|]. split; [done|]. split; [done|]. by apply Hall.
Qed.

(** A budget that gives no adapter a request makes the multi-adapter
    benchmark fail: with [total_requests < num_adapters] every entry of
    [adapter_counters] is zero or negative, no request is issued and the
    run ends in [ZeroDivisionError].  The same holds in single-adapter mode
    for a budget that is zero or negative. *)
Theorem budget_too_small single_adapter (budget num_adapters num_threads : Z) ls
    (start_time now now' : num) (requests : Z) counters rep s :
  configure budget num_adapters = Some (requests, counters) ->
  (if single_adapter then budget <= 0 else 0 < num_adapters /\ budget < num_adapters)%Z ->
  scenario single_adapter num_threads ls start_time now now' requests counters
  = Some (rep, s) ->
  rep = ZeroDivisionError /\ recorded s = 0 /\
  total_requests s = budget /\ adapter_counters s = counters.
Proof.
  intros (_ & -> & ->)%configure_Some Hsmall (cs & Hr & Hj & ->)%benchmark_scenario_Some.
  assert (exhausted single_adapter
            (@spawn num num_threads budget
               (replicate (Z.to_nat num_adapters) (budget / num_adapters)%Z)) = true) as Hex.
  { unfold exhausted. simpl. destruct single_adapter.
    - destruct (Z.ltb_spec 0 budget); [lia|done].
    - destruct Hsmall as [Hn Hlt].
      rewrite (proj2 (remaining_adapters_nil _)); [done|].
      apply Forall_replicate.
      assert (budget / num_adapters < 1)%Z; [|lia].
      apply Z.div_lt_upper_bound; lia. }
  destruct (exhausted_run_idle _ _ _ _ _ _ _ _ Hex Hr) as (_ & Hreq & Hcnt & Hrec & _).
  split; [by apply summarize_nothing|]. done.
Qed.

(** The counters are never reset.  Once some worker of a run has left its
    loop by [break], every later call of [benchmark_scenario] in the same
    mode, with any number of workers, issues no request and ends in
    [ZeroDivisionError]. *)
Theorem rerun_divides_by_zero single_adapter (num_threads requests : Z) counters
    ls cs s t w (num_threads2 : Z) ls2 (start_time now now' : num) rep2 s2 :
  run sub single_adapter ls (spawn num_threads requests counters) = Some (cs, s) ->
  workers s !! t = Some w -> pc w = Returned ->
  scenario single_adapter num_threads2 ls2 start_time now now'
    (total_requests s) (adapter_counters s) = Some (rep2, s2) ->
  rep2 = ZeroDivisionError /\ recorded s2 = 0 /\
  total_requests s2 = total_requests s /\ adapter_counters s2 = adapter_counters s.
Proof.
  intros Hr Hw Hpc (cs2 & Hr2 & Hj2 & ->)%benchmark_scenario_Some.
  pose proof (joined_exhausted _ _ _ _ _ _ _ _ _ _ Hr Hw Hpc) as Hex.
  assert (exhausted single_adapter
            (@spawn num num_threads2 (total_requests s) (adapter_counters s)) = true)
    as Hex2 by (by rewrite <- Hex).
  destruct (exhausted_run_idle _ _ _ _ _ _ _ _ Hex2 Hr2) as (_ & Hreq & Hcnt & Hrec & _).
  split; [by apply summarize_nothing|]. done.
Qed.

(** The two calls at the end of the cell, for a budget of at least one
    request per adapter, at least one worker and no exception of [predict]:
    the single-adapter call records [total_requests] measurements and
    leaves [adapter_counters] untouched, so that the multi-adapter call,
    which runs unless the first one raised, records
    [num_adapters * (total_requests // num_adapters)] measurements and
    leaves every counter at zero. *)
Theorem benchmarks_in_sequence (budget num_adapters num_threads : Z)
    ls (start_time now now' : num) ls2 (start_time2 now2 now2' : num)
    (requests : Z) counters rep s o :
  (0 < num_adapters <= budget)%Z -> (0 < num_threads)%Z ->
  configure budget num_adapters = Some (requests, counters) ->
  script num_threads ls start_time now now' ls2 start_time2 now2 now2'
    requests counters = Some (rep, s, o) ->
  existsb raises ls = false -> existsb raises ls2 = false ->
  Z.of_nat (recorded s) = budget /\
  total_requests s = 0%Z /\ adapter_counters s = counters /\
  (is_zero (sub now start_time) = false -> exists r, rep = Printed r) /\
  (forall r, rep = Printed r -> exists rep2 s2, o = Some (rep2, s2)) /\
  (forall rep2 s2, o = Some (rep2, s2) ->
     Z.of_nat (recorded s2) = (num_adapters * (budget / num_adapters))%Z /\
     total_requests s2 = 0%Z /\
     Forall (eq 0%Z) (adapter_counters s2)).
Proof.
  intros [Hn Hb] Hw Hcfg Hscript Hq Hq2.
  assert (0 <= budget)%Z as Hb0 by lia.
  pose proof (configure_nonneg (num := num) _ _ num_threads _ _ Hb0 Hcfg) as Hnn.
  unfold run_benchmarks in Hscript.
  destruct (scenario true num_threads ls start_time now now' requests counters)
    as [[rep1 s1]|] eqn:Hfirst; [|done].
  pose proof Hfirst as (cs1 & Hr1 & Hj1 & Hrep1)%benchmark_scenario_Some.
  destruct (quiet_run_drains _ _ _ _ _ _ _ _ Hnn Hw Hr1 Hj1 Hq) as (Hrec1 & Hz1 & Hsum1).
  pose proof (run_mode_isolation _ _ _ _ _ _ Hr1) as Hiso1. simpl in Hiso1.
  unfold pool in Hz1. rewrite Forall_singleton in Hz1. simpl in Hsum1.
  pose proof Hcfg as (_ & -> & Hcnt)%configure_Some.
  assert (Z.of_nat (recorded s1) = budget /\ total_requests s1 = 0%Z /\
          adapter_counters s1 = counters) as (Hrec & Hreq & Hac)
    by (split; [lia|split; [by symmetry|done]]).
  assert (is_zero (sub now start_time) = false -> exists r, rep1 = Printed r) as Hprinted.
  { intros Hz. rewrite Hrep1. unfold summarize. fold (recorded s1).
    destruct (Nat.eqb_spec (recorded s1) 0) as [Hzero|_]; [lia|].
    rewrite Hz. eauto. }
  simpl in Hscript. destruct rep1 as [r1|].
  - destruct (scenario false num_threads ls2 start_time2 now2 now2'
                (total_requests s1) (adapter_counters s1))
      as [[rep2 s2]|] eqn:Hsecond; [|done].
    simpl in Hscript. injection Hscript as <- <- <-.
    split; [done|]. split; [done|]. split; [done|]. split; [done|].
    split; [eauto|]. intros rep2' s2' [= <- <-].
    apply benchmark_scenario_Some in Hsecond as (cs2 & Hr2 & Hj2 & _).
    rewrite Hreq, Hac in Hr2.
    assert (nonneg (@spawn num num_threads 0 counters)) as Hnn2
      by (split; [done | exact (proj2 Hnn)]).
    destruct (quiet_run_drains _ _ _ _ _ _ _ _ Hnn2 Hw Hr2 Hj2 Hq2) as (Hrec2 & Hz2 & Hsum2).
    pose proof (run_mode_isolation _ _ _ _ _ _ Hr2) as Hiso2. simpl in Hiso2, Hsum2, Hz2.
    rewrite Hcnt, sum_Z_replicate, Z2Nat.id in Hsum2 by lia.
    split; [lia|]. done.
  - injection Hscript as <- <- <-.
    split; [done|]. split; [done|]. split; [done|]. split; [done|].
    split; [done|]. done.
Qed.

End ReportExtras.

(** * Adapter prefixes, the warm-up loop and the upload to S3 *)

(** ** Strings *)

Lemma string_app_nil (b : string) : "" +:+ b = b.
Proof. reflexivity. Qed.

Lemma string_app_cons (x : ascii) (a b : string) :
  String x a +:+ b = String x (a +:+ b).
Proof. reflexivity. Qed.

Lemma string_app_assoc (a b c : string) : (a +:+ b) +:+ c = a +:+ (b +:+ c).
Proof.
  induction a as [|x a IH]; [done|]. rewrite !string_app_cons. by rewrite IH.
Qed.

Lemma slash_free_app (a b : string) :
  slash_free (a +:+ b) = slash_free a && slash_free b.
Proof.
  induction a as [|x a IH]; [done|].
  rewrite string_app_cons. simpl. rewrite IH. by rewrite andb_assoc.
Qed.

Lemma slash_free_slash (a b : string) : slash_free (a +:+ String "/" b) = false.
Proof. rewrite slash_free_app. simpl. apply andb_false_r. Qed.

(** A string is cut at its first slash in one way only. *)
Lemma split_at_slash (a1 a2 b1 b2 : string) :
  slash_free a1 = true -> slash_free a2 = true ->
  a1 +:+ String "/" b1 = a2 +:+ String "/" b2 ->
  a1 = a2 /\ b1 = b2.
Proof.
  revert a2. induction a1 as [|x a1 IH]; intros [|y a2] H1 H2 Heq;
    rewrite ?string_app_nil, ?string_app_cons in Heq; simpl in *.
  - by simplify_eq.
  - simplify_eq; by rewrite Ascii.eqb_refl in H2.
  - simplify_eq; by rewrite Ascii.eqb_refl in H1.
  - apply andb_prop in H1 as [_ H1]. apply andb_prop in H2 as [_ H2].
    injection Heq as -> Heq. by destruct (IH _ H1 H2 Heq) as [-> ->].
Qed.

Lemma join_slash_cons (c : string) (rest : list string) :
  rest <> [] -> join_slash (c :: rest) = c +:+ String "/" (join_slash rest).
Proof. by destruct rest. Qed.

Lemma join_slash_inj (l1 l2 : list string) :
  l1 <> [] -> l2 <> [] ->
  Forall (fun c => slash_free c = true) l1 ->
  Forall (fun c => slash_free c = true) l2 ->
  join_slash l1 = join_slash l2 -> l1 = l2.
Proof.
  revert l2. induction l1 as [|c l1 IH]; intros [|c' l2] Hn1 Hn2 H1 H2 Heq; try done.
  apply Forall_cons in H1 as [Hc H1]. apply Forall_cons in H2 as [Hc' H2].
  destruct l1 as [|d l1], l2 as [|d' l2].
  - simpl in Heq. by subst.
  - rewrite (join_slash_cons c') in Heq by done. simpl in Heq. subst c.
    by rewrite slash_free_slash in Hc.
  - rewrite (join_slash_cons c) in Heq by done. simpl in Heq. subst c'.
    by rewrite slash_free_slash in Hc'.
  - rewrite !join_slash_cons in Heq by done.
    destruct (split_at_slash _ _ _ _ Hc Hc' Heq) as [-> Hrest].
    f_equal. by apply IH.
Qed.

Lemma ends_with_slash_app (a b : string) :
  b <> "" -> ends_with_slash (a +:+ b) = ends_with_slash b.
Proof.
  intros Hb. induction a as [|x a IH]; [done|].
  rewrite string_app_cons. simpl.
  destruct (a +:+ b) eqn:Hab; [|done].
  destruct a; [by rewrite string_app_nil in Hab|by rewrite string_app_cons in Hab].
Qed.

Lemma ends_with_slash_free (a : string) :
  slash_free a = true -> ends_with_slash a = false.
Proof.
  induction a as [|x a IH]; simpl; [done|].
  intros [Hx Ha]%andb_prop. destruct a; [|by apply IH].
  by apply negb_true_iff.
Qed.

Lemma path_join_plain (a b : string) :
  a <> "" -> ends_with_slash a = false -> starts_with_slash b = false ->
  path_join a b = a +:+ "/" +:+ b.
Proof.
  intros Ha Hend Hb. unfold path_join. rewrite Hb, Hend.
  destruct a; [done|]. done.
Qed.

(** ** Decimal numerals *)

Lemma pretty_N_char_no_slash (x : N) : Ascii.eqb (pretty_N_char x) "/" = false.
Proof. unfold pretty_N_char. by repeat case_match. Qed.

Lemma pretty_N_go_slash_free (x : N) (s : string) :
  slash_free s = true -> slash_free (pretty_N_go x s) = true.
Proof.
  revert s. induction (N.lt_wf_0 x) as [x _ IH]; intros s Hs.
  assert (x = 0 \/ 0 < x)%N as [->|Hpos] by lia.
  - by rewrite pretty_N_go_0.
  - rewrite pretty_N_go_step by done. apply IH; [by apply N.div_lt|].
    simpl. by rewrite pretty_N_char_no_slash, Hs.
Qed.

Lemma pretty_N_go_nonempty (x : N) (s : string) :
  s <> "" -> pretty_N_go x s <> "".
Proof.
  revert s. induction (N.lt_wf_0 x) as [x _ IH]; intros s Hs.
  assert (x = 0 \/ 0 < x)%N as [->|Hpos] by lia.
  - by rewrite pretty_N_go_0.
  - rewrite pretty_N_go_step by done. apply IH; [by apply N.div_lt|done].
Qed.

Lemma pretty_nat_slash_free (i : nat) : slash_free (pretty i) = true.
Proof.
  unfold pretty, pretty_nat, pretty, pretty_N. case_decide; [done|].
  by apply pretty_N_go_slash_free.
Qed.

Lemma pretty_nat_nonempty (i : nat) : pretty i <> "".
Proof.
  unfold pretty, pretty_nat, pretty, pretty_N. case_decide; [done|].
  rewrite pretty_N_go_step by lia. by apply pretty_N_go_nonempty.
Qed.

(** ** Adapter prefixes *)

Lemma adapter_path_nonempty (base_prefix : string) (i : nat) :
  adapter_path base_prefix i <> "".
Proof.
  unfold adapter_path. destruct base_prefix; [|by rewrite string_app_cons].
  rewrite string_app_nil. change ("/" +:+ pretty i) with (String "/" (pretty i)). done.
Qed.

Lemma adapter_path_no_trailing_slash (base_prefix : string) (i : nat) :
  ends_with_slash (adapter_path base_prefix i) = false.
Proof.
  unfold adapter_path.
  rewrite ends_with_slash_app by (pose proof (pretty_nat_nonempty i); by destruct (pretty i)).
  change ("/" +:+ pretty i) with (String "/" (pretty i)).
  pose proof (pretty_nat_nonempty i) as Hne.
  pose proof (ends_with_slash_free _ (pretty_nat_slash_free i)) as Hend.
  simpl. by destruct (pretty i).
Qed.

(** The prefixes of two adapters are different, and no object key below one
    of them is a key below the other, although [.../1] is the beginning of
    [.../10]. *)
Theorem adapter_prefixes_disjoint (base_prefix : string) (i j : nat) (r r' : string) :
  (adapter_path base_prefix i = adapter_path base_prefix j -> i = j) /\
  (adapter_path base_prefix i +:+ "/" +:+ r
   = adapter_path base_prefix j +:+ "/" +:+ r' -> i = j /\ r = r').
Proof.
  unfold adapter_path. split.
  - intros Heq. apply (inj (String.app base_prefix)) in Heq.
    injection Heq as Heq. by apply (inj pretty).
  - rewrite !string_app_assoc. intros Heq.
    apply (inj (String.app base_prefix)) in Heq.
    injection Heq as Heq.
    destruct (split_at_slash _ _ _ _ (pretty_nat_slash_free i)
                (pretty_nat_slash_free j) Heq) as [Hij ->].
    split; [by apply (inj pretty)|done].
Qed.

(** ** Sequences of uploads *)

Section Uploads.
Context {data : Type}.
Variable read : list string -> data.

#[local] Abbreviation objects := (gmap (string * string) data).
#[local] Abbreviation put :=
  (fun (s3 : objects) (o : (string * string) * data) => <[fst o := snd o]> s3).

Implicit Types (k : string * string) (d : data)
  (os : list ((string * string) * data)) (local_path : list walked).

Lemma written_or_not os k : (exists d, (k, d) ∈ os) \/ ~ (exists d, (k, d) ∈ os).
Proof.
  destruct (decide (k ∈ os.*1)) as [Hin|Hno].
  - left. apply list_elem_of_fmap in Hin as ([k' d] & -> & Hin). by exists d.
  - right. intros [d Hd]. apply Hno. apply list_elem_of_fmap. by exists (k, d).
Qed.

Lemma put_not_written os (s3 : objects) k :
  ~ (exists d, (k, d) ∈ os) -> foldl put s3 os !! k = s3 !! k.
Proof.
  revert s3. induction os as [|[k0 d0] os IH]; intros s3 Hno; simpl; [done|].
  rewrite IH.
  - apply lookup_insert_ne. intros ->. apply Hno. exists d0. left.
  - intros [d Hd]. apply Hno. exists d. by right.
Qed.

(** The last upload to a key decides what the key holds; when all uploads to
    the key carry the same data, it holds that. *)
Lemma put_written os (s3 : objects) k d :
  (k, d) ∈ os -> (forall d', (k, d') ∈ os -> d' = d) ->
  foldl put s3 os !! k = Some d.
Proof.
  revert s3. induction os as [|[k0 d0] os IH]; intros s3 Hin Hfun; simpl.
  - by apply elem_of_nil in Hin.
  - destruct (written_or_not os k) as [[d' Hd']|Hno].
    + apply IH.
      * rewrite (Hfun d') in Hd' by (by right). done.
      * intros d'' Hd''. apply Hfun. by right.
    + rewrite put_not_written by done.
      apply elem_of_cons in Hin as [[= <- <-]|Hin].
      * simpl. apply lookup_insert_eq.
      * destruct Hno. eauto.
Qed.

Lemma put_keeps os (s3 : objects) k :
  is_Some (s3 !! k) -> is_Some (foldl put s3 os !! k).
Proof.
  revert s3. induction os as [|[k0 d0] os IH]; intros s3 Hs; simpl; [done|].
  apply IH. simpl. destruct (decide (k0 = k)) as [->|Hne].
  - by rewrite lookup_insert_eq.
  - by rewrite lookup_insert_ne.
Qed.

Lemma put_read_back os (s3 : objects) k d :
  foldl put s3 os !! k = Some d -> s3 !! k = Some d \/ (k, d) ∈ os.
Proof.
  revert s3. induction os as [|[k0 d0] os IH]; intros s3 Hl; simpl in *; [by left|].
  destruct (IH _ Hl) as [Hs|Hin]; [|right; by right].
  destruct (decide (k0 = k)) as [->|Hne].
  - rewrite lookup_insert_eq in Hs. simplify_eq. right. left.
  - rewrite lookup_insert_ne in Hs by done. by left.
Qed.

Lemma upload_folder_to_s3_puts local_path (s3_bucket s3_prefix : string) (s3 : objects) :
  upload_folder_to_s3 read local_path s3_bucket s3_prefix s3
  = foldl put s3 (map (uploaded read s3_bucket s3_prefix) (walked_files local_path)).
Proof.
  unfold upload_folder_to_s3, walked_files.
  revert s3. induction local_path as [|[[root dirs] files] local_path IH]; intros s3;
    simpl; [done|].
  rewrite map_app, foldl_app, IH. f_equal.
  clear. revert s3. induction files as [|file files IH]; intros s3; simpl; [done|].
  by rewrite IH.
Qed.

Lemma upload_adapters_puts local_path (s3_bucket base_prefix : string) (i n : nat) (s3 : objects) :
  foldl (fun s3 i =>
           upload_folder_to_s3 read local_path s3_bucket (adapter_path base_prefix i) s3)
        s3 (seq i n)
  = foldl put s3
      (concat (map (fun i => map (uploaded read s3_bucket (adapter_path base_prefix i))
                                 (walked_files local_path))
                   (seq i n))).
Proof.
  revert i s3. induction n as [|n IH]; intros i s3; simpl; [done|].
  by rewrite foldl_app, IH, upload_folder_to_s3_puts.
Qed.

(** ** File names and keys *)

Lemma starts_with_slash_join (c : string) (rest : list string) :
  name_ok c = true -> starts_with_slash (join_slash (c :: rest)) = false.
Proof.
  unfold name_ok. destruct c as [|x c]; [done|]. simpl.
  intros [Hx _]%andb_prop. apply negb_true_iff in Hx.
  destruct rest; [done|]. by rewrite string_app_cons.
Qed.

Lemma relpath_relative (root : list string) (file : string) :
  Forall (fun name => name_ok name = true) (root ++ [file]) ->
  starts_with_slash (relpath root file) = false.
Proof.
  unfold relpath. destruct root as [|c root]; simpl.
  - intros [Hf _]%Forall_cons. by apply (starts_with_slash_join file []).
  - intros [Hc _]%Forall_cons. by apply (starts_with_slash_join c (root ++ [file])).
Qed.

Lemma name_ok_slash_free (name : string) :
  name_ok name = true -> slash_free name = true.
Proof. unfold name_ok. by intros [_ ?]%andb_prop. Qed.

Lemma relpath_inj (root root' : list string) (file file' : string) :
  Forall (fun name => name_ok name = true) (root ++ [file]) ->
  Forall (fun name => name_ok name = true) (root' ++ [file']) ->
  relpath root file = relpath root' file' -> root = root' /\ file = file'.
Proof.
  intros H1 H2 Heq. unfold relpath in Heq.
  apply join_slash_inj in Heq.
  - by apply app_inj_tail in Heq.
  - by destruct root.
  - by destruct root'.
  - eapply Forall_impl; [exact H1|]. apply name_ok_slash_free.
  - eapply Forall_impl; [exact H2|]. apply name_ok_slash_free.
Qed.

(** Below a fixed prefix, a relative path is joined in one and the same
    way. *)
Lemma path_join_relative (a b : string) :
  starts_with_slash b = false ->
  path_join a b = (if String.eqb a "" || ends_with_slash a then a else a +:+ "/") +:+ b.
Proof.
  intros Hb. unfold path_join. rewrite Hb.
  destruct (String.eqb a "" || ends_with_slash a); [done|].
  by rewrite string_app_assoc.
Qed.

Lemma path_join_inj (a b b' : string) :
  starts_with_slash b = false -> starts_with_slash b' = false ->
  path_join a b = path_join a b' -> b = b'.
Proof.
  intros Hb Hb'. rewrite !path_join_relative by done. apply (inj (String.app _)).
Qed.

Lemma walked_file_names local_path (f : list string * string) :
  names_ok local_path -> f ∈ walked_files local_path ->
  Forall (fun name => name_ok name = true) (fst f ++ [snd f]).
Proof.
  unfold names_ok. rewrite Forall_forall. intros Hall Hin.
  specialize (Hall _ Hin). by destruct f.
Qed.

Lemma adapter_key (base_prefix : string) (i : nat) (root : list string) (file : string) :
  Forall (fun name => name_ok name = true) (root ++ [file]) ->
  path_join (adapter_path base_prefix i) (relpath root file)
  = adapter_path base_prefix i +:+ "/" +:+ relpath root file.
Proof.
  intros Hok. apply path_join_plain.
  - apply adapter_path_nonempty.
  - apply adapter_path_no_trailing_slash.
  - by apply relpath_relative.
Qed.

Lemma adapter_key_inj (base_prefix : string) (i j : nat) (r r' : string) :
  adapter_path base_prefix i +:+ "/" +:+ r
  = adapter_path base_prefix j +:+ "/" +:+ r' -> i = j /\ r = r'.
Proof.
  unfold adapter_path. rewrite !string_app_assoc. intros Heq.
  apply (inj (String.app base_prefix)) in Heq.
  injection Heq as Heq.
  destruct (split_at_slash _ _ _ _ (pretty_nat_slash_free i)
              (pretty_nat_slash_free j) Heq) as [Hij ->].
  split; [by apply (inj pretty)|done].
Qed.

(** ** The upload of one folder *)

(** [upload_folder_to_s3] only adds or overwrites objects of [s3_bucket]:
    objects of other buckets are as before, no object disappears, and
    whatever the bucket holds afterwards was there before or is the content
    of a walked file under the key joined from [s3_prefix] and the file's
    relative path.  A folder without files changes nothing. *)
Theorem upload_folder_frame local_path (s3_bucket s3_prefix : string) (s3 : objects) k :
  (fst k <> s3_bucket ->
   upload_folder_to_s3 read local_path s3_bucket s3_prefix s3 !! k = s3 !! k) /\
  (is_Some (s3 !! k) ->
   is_Some (upload_folder_to_s3 read local_path s3_bucket s3_prefix s3 !! k)) /\
  (forall d,
     upload_folder_to_s3 read local_path s3_bucket s3_prefix s3 !! k = Some d ->
     s3 !! k = Some d \/
     exists root file,
       (root, file) ∈ walked_files local_path /\
       k = (s3_bucket, path_join s3_prefix (relpath root file)) /\
       d = read (root ++ [file])) /\
  (walked_files local_path = [] ->
   upload_folder_to_s3 read local_path s3_bucket s3_prefix s3 = s3).
Proof.
  rewrite upload_folder_to_s3_puts.
  assert (forall d, (k, d) ∈ map (uploaded read s3_bucket s3_prefix) (walked_files local_path) ->
            exists root file, (root, file) ∈ walked_files local_path /\
              k = (s3_bucket, path_join s3_prefix (relpath root file)) /\
              d = read (root ++ [file])) as Hcalls.
  { intros d ([root file] & Heq & Hin)%list_elem_of_In%in_map_iff.
    apply list_elem_of_In in Hin. unfold uploaded in Heq. simpl in Heq.
    exists root, file. by simplify_eq. }
  split; [|split; [|split]].
  - intros Hne. apply put_not_written. intros [d Hd].
    destruct (Hcalls _ Hd) as (root & file & _ & -> & _). done.
  - apply put_keeps.
  - intros d Hl. destruct (put_read_back _ _ _ _ Hl) as [?|Hin]; [by left|].
    right. by apply Hcalls.
  - by intros ->.
Qed.

(** After [upload_folder_to_s3], when every directory and file name is a
    proper name (not empty, no slash), each file of the folder is found in
    the bucket, with its content, under [s3_prefix] joined with its
    relative path. *)
Theorem upload_folder_round_trip local_path (s3_bucket s3_prefix : string) (s3 : objects)
    (root : list string) (file : string) :
  names_ok local_path ->
  (root, file) ∈ walked_files local_path ->
  upload_folder_to_s3 read local_path s3_bucket s3_prefix s3
    !! (s3_bucket, path_join s3_prefix (relpath root file))
  = Some (read (root ++ [file])).
Proof.
  intros Hok Hin. rewrite upload_folder_to_s3_puts. apply put_written.
  - apply list_elem_of_In, in_map_iff. exists (root, file).
    split; [done|]. by apply list_elem_of_In.
  - intros d' ([root' file'] & Heq & Hin')%list_elem_of_In%in_map_iff.
    apply list_elem_of_In in Hin'. unfold uploaded in Heq. simpl in Heq.
    injection Heq as Hkey <-.
    pose proof (walked_file_names _ _ Hok Hin) as Hn.
    pose proof (walked_file_names _ _ Hok Hin') as Hn'. simpl in Hn, Hn'.
    apply path_join_inj in Hkey; [|by apply relpath_relative..].
    by destruct (relpath_inj _ _ _ _ Hn' Hn Hkey) as [-> ->].
Qed.

Lemma upload_adapters_lookup local_path (sagemaker_session_bucket base_prefix : string)
    (n_adapters i : nat) (s3 : objects) (root : list string) (file : string) :
  names_ok local_path ->
  1 <= i <= n_adapters ->
  (root, file) ∈ walked_files local_path ->
  upload_adapters read local_path sagemaker_session_bucket base_prefix n_adapters s3
    !! (sagemaker_session_bucket,
        adapter_path base_prefix i +:+ "/" +:+ relpath root file)
  = Some (read (root ++ [file])).
Proof.
  intros Hok Hi Hin. unfold upload_adapters. rewrite upload_adapters_puts.
  pose proof (walked_file_names _ _ Hok Hin) as Hn. simpl in Hn.
  apply put_written.
  - apply list_elem_of_In, in_concat. eexists. split.
    + apply in_map_iff. exists i. split; [done|]. apply in_seq. lia.
    + apply in_map_iff. exists (root, file). split; [|by apply list_elem_of_In].
      unfold uploaded. simpl. by rewrite adapter_key.
  - intros d' (os & (j & <- & _)%in_map_iff & Hin')%list_elem_of_In%in_concat.
    apply in_map_iff in Hin' as ([root' file'] & Heq & Hin').
    apply list_elem_of_In in Hin'.
    pose proof (walked_file_names _ _ Hok Hin') as Hn'. simpl in Hn'.
    unfold uploaded in Heq. simpl in Heq. rewrite adapter_key in Heq by done.
    injection Heq as Hkey <-.
    apply adapter_key_inj in Hkey as [_ Hrel].
    by destruct (relpath_inj _ _ _ _ Hn' Hn Hrel) as [-> ->].
Qed.

(** After the loop that uploads the folder once per adapter, every adapter
    [1 .. n_adapters] has every file of the folder, with its content, under
    its own prefix: the copies do not overwrite each other.  Objects of
    other buckets are untouched. *)
Theorem upload_adapters_coexist local_path (sagemaker_session_bucket base_prefix : string)
    (n_adapters : nat) (s3 : objects) :
  names_ok local_path ->
  (forall i root file,
     1 <= i <= n_adapters ->
     (root, file) ∈ walked_files local_path ->
     upload_adapters read local_path sagemaker_session_bucket base_prefix n_adapters s3
       !! (sagemaker_session_bucket,
           adapter_path base_prefix i +:+ "/" +:+ relpath root file)
     = Some (read (root ++ [file]))) /\
  (forall k, fst k <> sagemaker_session_bucket ->
     upload_adapters read local_path sagemaker_session_bucket base_prefix n_adapters s3
       !! k = s3 !! k).
Proof.
  intros Hok. split.
  - intros i root file Hi Hin. by apply upload_adapters_lookup.
  - intros k Hne. unfold upload_adapters. rewrite upload_adapters_puts.
    apply put_not_written. intros [d Hd].
    apply list_elem_of_In, in_concat in Hd as (os & (j & <- & _)%in_map_iff & Hin).
    apply in_map_iff in Hin as (f & Heq & _). unfold uploaded in Heq.
    by simplify_eq.
Qed.

End Uploads.

(** ** The warm-up loop *)

Lemma warm_up_loop_seq {response : Type} (outcome : nat -> option response)
    (base_prefix : string) (start n : nat)
    (sent : list payload) (printed : list response) (finished : bool) :
  warm_up_loop outcome base_prefix (seq start n) = (sent, printed, finished) ->
  (finished = true ->
     (forall i, start <= i < start + n -> is_Some (outcome i)) /\
     sent = payload_adapter base_prefix <$> seq start n /\
     length printed = n) /\
  (finished = false ->
     exists k, start <= k < start + n /\ outcome k = None /\
       (forall i, start <= i < k -> is_Some (outcome i)) /\
       sent = payload_adapter base_prefix <$> seq start (S k - start) /\
       length printed = k - start).
Proof.
  revert start sent printed finished.
  induction n as [|n IH]; intros start sent printed finished; simpl.
  - intros [= <- <- <-]. split; [|done]. intros _. split; [lia|done].
  - destruct (outcome start) as [r|] eqn:Hout.
    + destruct (warm_up_loop outcome base_prefix (seq (S start) n))
        as [[sent' printed'] finished'] eqn:Hrest.
      intros [= <- <- <-]. destruct (IH _ _ _ _ Hrest) as [Hok Hfail]. split.
      * intros Hfin. destruct (Hok Hfin) as (Hall & -> & Hlen).
        split; [|split; [done|simpl; lia]].
        intros i Hi. destruct (decide (i = start)) as [->|Hne]; [by rewrite Hout|].
        apply Hall. lia.
      * intros Hfin. destruct (Hfail Hfin) as (k & Hk & Hnone & Hbefore & -> & Hlen).
        exists k. split; [lia|]. split; [done|]. split.
        { intros i Hi. destruct (decide (i = start)) as [->|Hne]; [by rewrite Hout|].
          apply Hbefore. lia. }
        split; [|simpl; lia].
        replace (S k - start) with (S (S k - S start)) by lia. done.
    + intros [= <- <- <-]. split; [done|]. intros _.
      exists start. split; [lia|]. split; [done|]. split; [lia|].
      split; [|simpl; lia]. by replace (S start - start) with 1 by lia.
Qed.

(** The warm-up loop stops at the first call of [predict] that raises.  If
    it runs to its end, every adapter [1 .. n_adapters] was called once, in
    order.  Otherwise there is a first adapter [k] whose call raised: the
    adapters [1 .. k] were called, [k - 1] responses were printed, and the
    adapters after [k] were never called. *)
Theorem warm_up_stops_at_first_failure {response : Type}
    (outcome : nat -> option response) (base_prefix : string) (n_adapters : nat)
    (sent : list payload) (printed : list response) (finished : bool) :
  warm_up outcome base_prefix n_adapters = (sent, printed, finished) ->
  (finished = true ->
     (forall i, 1 <= i <= n_adapters -> is_Some (outcome i)) /\
     sent = payload_adapter base_prefix <$> seq 1 n_adapters /\
     length printed = n_adapters) /\
  (finished = false ->
     exists k, 1 <= k <= n_adapters /\ outcome k = None /\
       (forall i, 1 <= i < k -> is_Some (outcome i)) /\
       sent = payload_adapter base_prefix <$> seq 1 k /\
       length printed = k - 1).
Proof.
  intros Hw. destruct (warm_up_loop_seq _ _ _ _ _ _ _ Hw) as [Hok Hfail]. split.
  - intros Hfin. destruct (Hok Hfin) as (Hall & Hsent & Hlen).
    split; [|done]. intros i Hi. apply Hall. lia.
  - intros Hfin. destruct (Hfail Hfin) as (k & Hk & Hnone & Hbefore & Hsent & Hlen).
    exists k. split; [lia|]. split; [done|]. split; [done|].
    replace (S k - 1) with k in Hsent by lia. done.
Qed.

(** ** From the upload to the benchmark *)

Section Prepared.
Context {num response data : Type}.
Variable sub : num -> num -> num.
Variable read : list string -> data.

(** The adapters that a run reserves are adapters [1 .. num_adapters]. *)
Lemma run_adapter_range (single_adapter : bool) (budget num_adapters num_threads requests : Z)
    (counters : list Z) (ls : list (@label num response)) (cs : list nat) (s : @state num) :
  (0 < num_adapters)%Z ->
  configure budget num_adapters = Some (requests, counters) ->
  run sub single_adapter ls (spawn num_threads requests counters) = Some (cs, s) ->
  Forall (fun adapter_id => 1 <= adapter_id <= Z.to_nat num_adapters) cs.
Proof.
  intros Hn (_ & -> & ->)%configure_Some Hr. destruct single_adapter.
  - eapply Forall_impl; [exact (run_single_claims _ _ _ _ _ Hr)|].
    intros id <-. lia.
  - pose proof (run_multi_range _ _ _ _ _ Hr) as Hrange. simpl in Hrange.
    by rewrite length_replicate in Hrange.
Qed.

(** When [num_adapters] of the benchmark is at most [n_adapters] of the
    upload and warm-up cells and the warm-up loop ran to its end, every
    request of the benchmark, in either mode, names an adapter that the
    warm-up loop called with the same payload, and every file of the
    adapter folder is in the bucket under that adapter's prefix. *)
Theorem benchmark_adapters_prepared (single_adapter : bool)
    (budget num_adapters num_threads requests : Z) (counters : list Z)
    (ls : list (@label num response)) (cs : list nat) (s : @state num)
    (outcome : nat -> option response) (base_prefix : string) (n_adapters : nat)
    (sent : list payload) (printed : list response)
    (model_dir : list walked) (sagemaker_session_bucket : string)
    (s3 : gmap (string * string) data) :
  (0 < num_adapters)%Z -> Z.to_nat num_adapters <= n_adapters ->
  configure budget num_adapters = Some (requests, counters) ->
  run sub single_adapter ls (spawn num_threads requests counters) = Some (cs, s) ->
  warm_up outcome base_prefix n_adapters = (sent, printed, true) ->
  names_ok model_dir ->
  Forall (fun adapter_id =>
            payload_adapter base_prefix adapter_id ∈ sent /\
            forall root file, (root, file) ∈ walked_files model_dir ->
              upload_adapters read model_dir sagemaker_session_bucket base_prefix
                n_adapters s3
                !! (sagemaker_session_bucket,
                    adapter_path base_prefix adapter_id +:+ "/" +:+ relpath root file)
              = Some (read (root ++ [file]))) cs.
Proof.
  intros Hn Hle Hcfg Hr Hwarm Hok.
  destruct (warm_up_loop_seq _ _ _ _ _ _ _ Hwarm) as [Hfin _].
  destruct (Hfin eq_refl) as (_ & -> & _).
  eapply Forall_impl; [exact (run_adapter_range _ _ _ _ _ _ _ _ _ Hn Hcfg Hr)|].
  intros id Hid. simpl in Hid. split.
  - apply list_elem_of_fmap. exists id. split; [done|].
    apply elem_of_seq. lia.
  - intros root file Hin. apply upload_adapters_lookup; [done|lia|done].
Qed.

End Prepared.

(** ** Printing the predicted classes *)

Lemma mapM_ext_Forall {A B : Type} (f g : A -> option B) (l : list A) :
  Forall (fun x => f x = g x) l -> mapM f l = mapM g l.
Proof.
  induction 1 as [|x l Hx Hl IH]; [done|].
  cbn [mapM]. by rewrite Hx, IH.
Qed.

(** The line is printed exactly when there are at least four predictions
    and the first four are positions of [classes]; otherwise an
    [IndexError] is raised.  Predictions after the fourth are ignored. *)
Theorem predicted_line_first_four (classes : list string) (predicted : list nat) :
  (process_async_response classes predicted = None <->
   length predicted < 4 \/
   exists j i, j < 4 /\ predicted !! j = Some i /\ length classes <= i) /\
  process_async_response classes (take 4 predicted)
  = process_async_response classes predicted.
Proof.
  unfold process_async_response. split.
  - destruct (mapM _ _) as [names|] eqn:Hm; simpl.
    + split; [done|]. intros Hbad. exfalso.
      assert (is_Some (mapM (fun j => i ← predicted !! j; classes !! i) (seq 0 4)))
        as Hsome by (by rewrite Hm).
      apply mapM_is_Some in Hsome. rewrite Forall_forall in Hsome.
      destruct Hbad as [Hlen|(j & i & Hj & Hp & Hi)].
      * destruct (Hsome (length predicted)) as [x Hx]; [apply elem_of_seq; lia|].
        simpl in Hx. by rewrite (proj2 (lookup_ge_None predicted _)) in Hx by lia.
      * destruct (Hsome j) as [x Hx]; [apply elem_of_seq; lia|].
        simpl in Hx. rewrite Hp in Hx. simpl in Hx.
        by rewrite (proj2 (lookup_ge_None classes _)) in Hx by lia.
    + split; [|done]. intros _.
      apply mapM_None, Exists_exists in Hm as (j & Hj & Hnone).
      apply elem_of_seq in Hj.
      destruct (predicted !! j) as [i|] eqn:Hp; simpl in Hnone.
      * right. exists j, i. split; [lia|]. split; [done|]. by apply lookup_ge_None.
      * left. apply lookup_ge_None in Hp. lia.
  - rewrite (mapM_ext_Forall _ (fun j => i ← predicted !! j; classes !! i)); [done|].
    apply Forall_forall. intros j Hj%elem_of_seq.
    by rewrite lookup_take_lt by lia.
Qed.

(** * The further properties on concrete runs *)

(** Worker 1 holds the lock when it lowers [total_requests] from 1 to 0. *)
Lemma counters_guarded_by_lock_witness :
  run Qminus true overlap_schedule (spawn 2 2 [2%Z]) = Some ([1], overlap_final) /\
  invoke_adapter Qminus true ((1, Body 0) : @label Q bool) overlap_final = Some (Some 1, overlap_next) /\
  total_requests overlap_next <> total_requests overlap_final /\
  counters_lock overlap_final = Some 1 /\ counters_lock overlap_next = Some 1.
Proof.
  assert (run Qminus true overlap_schedule (spawn 2 2 [2%Z])
          = Some ([1], overlap_final)) as Hrun by evaluate.
  assert (invoke_adapter Qminus true ((1, Body 0) : @label Q bool) overlap_final
          = Some (Some 1, overlap_next)) as Hstep by evaluate.
  assert (total_requests overlap_next <> total_requests overlap_final) as Hch
    by (vm_compute; discriminate).
  split; [exact Hrun|]. split; [exact Hstep|]. split; [exact Hch|].
  destruct (counters_guarded_by_lock (response := bool) Qminus true 2 2 [2%Z] overlap_schedule
              [1] overlap_final Hrun) as [_ Hguard].
  exact (Hguard 1 (Body 0 : action Q bool) (Some 1) overlap_next Hstep (or_introl Hch)).
Defined.

(** Two adapters with one request each: both counters end at zero and each
    adapter was reserved once. *)
Lemma adapter_quota_conservation_witness :
  run Qminus false multi_schedule (spawn 2 3 [1%Z; 1%Z])
  = Some (multi_claims, multi_final) /\
  Forall (fun adapter_id => 1 <= adapter_id <= 2) multi_claims /\
  sum_Z [1%Z; 1%Z]
  = (sum_Z (adapter_counters multi_final) + Z.of_nat (length multi_claims))%Z.
Proof.
  assert (run Qminus false multi_schedule (spawn 2 3 [1%Z; 1%Z])
          = Some (multi_claims, multi_final)) as Hrun by evaluate.
  split; [exact Hrun|].
  destruct (adapter_quota_conservation Qminus 2 3 [1%Z; 1%Z] multi_schedule
              multi_claims multi_final Hrun) as (_ & Hrange & _ & Hsum).
  split; [exact Hrange | exact Hsum].
Defined.

Lemma single_adapter_targets_witness :
  run Qminus true quiet_schedule (spawn 2 2 [2%Z]) = Some (quiet_claims, quiet_final) /\
  Forall (eq 1) quiet_claims /\
  2%Z = (total_requests quiet_final + Z.of_nat (length quiet_claims))%Z.
Proof.
  assert (run Qminus true quiet_schedule (spawn 2 2 [2%Z])
          = Some (quiet_claims, quiet_final)) as Hrun by evaluate.
  split; [exact Hrun|].
  destruct (single_adapter_targets Qminus 2 2 [2%Z] quiet_schedule
              quiet_claims quiet_final Hrun) as (Hone & Hsum & _).
  split; [exact Hone | exact Hsum].
Defined.

Lemma multi_adapter_terminates_witness :
  configure 3 2 = Some (3%Z, [1%Z; 1%Z]) /\
  run Qminus false multi_schedule (spawn 2 3 [1%Z; 1%Z])
  = Some (multi_claims, multi_final) /\
  length multi_schedule <= 4 * Z.to_nat (2 * (3 / 2)) + 4 * Z.to_nat 2.
Proof.
  assert (configure 3 2 = Some (3%Z, [1%Z; 1%Z])) as Hcfg by reflexivity.
  assert (run Qminus false multi_schedule (spawn 2 3 [1%Z; 1%Z])
          = Some (multi_claims, multi_final)) as Hrun by evaluate.
  split; [exact Hcfg|]. split; [exact Hrun|].
  exact (proj1 (multi_adapter_terminates Qminus 3 2 2 3 [1%Z; 1%Z] multi_schedule
                  multi_claims multi_final ltac:(lia) ltac:(lia) Hcfg Hrun)).
Defined.

(** The run that stopped with a request in flight can be finished. *)
Lemma every_run_can_complete_witness :
  run Qminus true overlap_schedule (spawn 2 2 [2%Z]) = Some ([1], overlap_final) /\
  exists (ls' : list (@label Q bool)) cs' s',
    run Qminus true ls' overlap_final = Some (cs', s') /\ joined s' = true /\
    existsb raises ls' = false.
Proof.
  assert (run Qminus true overlap_schedule (spawn 2 2 [2%Z])
          = Some ([1], overlap_final)) as Hrun by evaluate.
  split; [exact Hrun|].
  exact (every_run_can_complete Qminus true 0%Q true 2 2 [2%Z] overlap_schedule
           [1] overlap_final Hrun).
Defined.


(** One request for two adapters: nothing is requested. *)
Lemma budget_too_small_witness :
  configure 1 2 = Some (1%Z, [0%Z; 0%Z]) /\
  scenario_Q false 2 idle_schedule 10%Q 20%Q 21%Q 1 [0%Z; 0%Z]
  = Some (ZeroDivisionError, small_budget_final) /\
  recorded small_budget_final = 0 /\ total_requests small_budget_final = 1%Z.
Proof.
  assert (configure 1 2 = Some (1%Z, [0%Z; 0%Z])) as Hcfg by reflexivity.
  assert (scenario_Q false 2 idle_schedule 10%Q 20%Q 21%Q 1 [0%Z; 0%Z]
          = Some (ZeroDivisionError, small_budget_final)) as Hrun by evaluate.
  split; [exact Hcfg|]. split; [exact Hrun|].
  destruct (budget_too_small Qminus Qplus Qdiv inject_Z (fun q => Qeq_bool q 0)
              false 1 2 2 idle_schedule 10%Q 20%Q 21%Q 1 [0%Z; 0%Z]
              ZeroDivisionError small_budget_final Hcfg ltac:(simpl; lia) Hrun)
    as (_ & Hrec & Hreq & _).
  split; [exact Hrec | exact Hreq].
Defined.

(** Calling the single-adapter benchmark again after a complete run. *)
Lemma rerun_divides_by_zero_witness :
  run Qminus true quiet_schedule (spawn 2 2 [2%Z]) = Some (quiet_claims, quiet_final) /\
  workers quiet_final !! 0 = Some (Worker Returned [2%Q]) /\
  scenario_Q true 2 idle_schedule 30%Q 40%Q 41%Q
    (total_requests quiet_final) (adapter_counters quiet_final)
  = Some (ZeroDivisionError, rerun_final) /\
  recorded rerun_final = 0.
Proof.
  assert (run Qminus true quiet_schedule (spawn 2 2 [2%Z])
          = Some (quiet_claims, quiet_final)) as Hrun by evaluate.
  assert (workers quiet_final !! 0 = Some (Worker Returned [2%Q])) as Hw by reflexivity.
  assert (scenario_Q true 2 idle_schedule 30%Q 40%Q 41%Q
            (total_requests quiet_final) (adapter_counters quiet_final)
          = Some (ZeroDivisionError, rerun_final)) as Hsecond by evaluate.
  split; [exact Hrun|]. split; [exact Hw|]. split; [exact Hsecond|].
  exact (proj1 (proj2 (rerun_divides_by_zero Qminus Qplus Qdiv inject_Z
                         (fun q => Qeq_bool q 0) true 2 2 [2%Z] quiet_schedule
                         quiet_claims quiet_final 0 (Worker Returned [2%Q])
                         2 idle_schedule 30%Q 40%Q 41%Q ZeroDivisionError rerun_final
                         Hrun Hw eq_refl Hsecond))).
Defined.

(** Both calls of the cell with a budget of two requests for one adapter. *)
Lemma benchmarks_in_sequence_witness :
  configure 2 1 = Some (2%Z, [2%Z]) /\
  run_benchmarks Qminus Qplus Qdiv inject_Z (fun q => Qeq_bool q 0) 2
    quiet_schedule 10%Q 20%Q 21%Q quiet_schedule 30%Q 40%Q 41%Q 2 [2%Z]
  = Some (Printed (Result 11%Q (7 # 2)%Q (2 # 10)%Q), quiet_final,
          Some (Printed (Result 11%Q (7 # 2)%Q (2 # 10)%Q), second_final)) /\
  Z.of_nat (recorded quiet_final) = 2%Z /\
  Z.of_nat (recorded second_final) = (1 * (2 / 1))%Z /\
  Forall (eq 0%Z) (adapter_counters second_final).
Proof.
  assert (configure 2 1 = Some (2%Z, [2%Z])) as Hcfg by reflexivity.
  assert (run_benchmarks Qminus Qplus Qdiv inject_Z (fun q => Qeq_bool q 0) 2
            quiet_schedule 10%Q 20%Q 21%Q quiet_schedule 30%Q 40%Q 41%Q 2 [2%Z]
          = Some (Printed (Result 11%Q (7 # 2)%Q (2 # 10)%Q), quiet_final,
                  Some (Printed (Result 11%Q (7 # 2)%Q (2 # 10)%Q), second_final)))
    as Hrun by evaluate.
  split; [exact Hcfg|]. split; [exact Hrun|].
  destruct (benchmarks_in_sequence Qminus Qplus Qdiv inject_Z (fun q => Qeq_bool q 0)
              2 1 2 quiet_schedule 10%Q 20%Q 21%Q quiet_schedule 30%Q 40%Q 41%Q
              2 [2%Z] _ quiet_final _ ltac:(lia) ltac:(lia) Hcfg Hrun eq_refl eq_refl)
    as (Hfirst & _ & _ & _ & _ & Hsecond).
  split; [exact Hfirst|].
  destruct (Hsecond _ second_final eq_refl) as (Hrec & _ & Hzero).
  split; [exact Hrec | exact Hzero].
Defined.

Lemma adapter_folder_names_ok : names_ok adapter_folder.
Proof. unfold names_ok. simpl. repeat constructor. Qed.

(** The file in the subdirectory of the example folder is found under the
    prefix of adapter 7. *)
Lemma upload_folder_round_trip_witness :
  names_ok adapter_folder /\
  (["checkpoint"], "README.md") ∈ walked_files adapter_folder /\
  upload_folder_to_s3 join_slash adapter_folder "bucket"
    (adapter_path "lorax/mistral-adapters" 7) ∅
    !! ("bucket", path_join (adapter_path "lorax/mistral-adapters" 7)
                    (relpath ["checkpoint"] "README.md"))
  = Some (join_slash (["checkpoint"] ++ ["README.md"])).
Proof.
  assert ((["checkpoint"], "README.md") ∈ walked_files adapter_folder) as Hin
    by (apply list_elem_of_In; simpl; auto).
  split; [exact adapter_folder_names_ok|]. split; [exact Hin|].
  exact (upload_folder_round_trip join_slash adapter_folder "bucket"
           (adapter_path "lorax/mistral-adapters" 7) ∅ ["checkpoint"] "README.md"
           adapter_folder_names_ok Hin).
Defined.

(** After fifty copies, the copy of adapter 1 is still there beside the one
    of adapter 10. *)
Lemma upload_adapters_coexist_witness :
  names_ok adapter_folder /\
  ([], "adapter_model.bin") ∈ walked_files adapter_folder /\
  upload_adapters join_slash adapter_folder "bucket" "lorax/mistral-adapters" 50 ∅
    !! ("bucket", adapter_path "lorax/mistral-adapters" 1 +:+ "/"
                    +:+ relpath [] "adapter_model.bin")
  = Some (join_slash ([] ++ ["adapter_model.bin"])).
Proof.
  assert (([], "adapter_model.bin") ∈ walked_files adapter_folder) as Hin
    by (apply list_elem_of_In; simpl; auto).
  split; [exact adapter_folder_names_ok|]. split; [exact Hin|].
  exact (proj1 (upload_adapters_coexist join_slash adapter_folder "bucket"
                  "lorax/mistral-adapters" 50 ∅ adapter_folder_names_ok)
           1 [] "adapter_model.bin" ltac:(lia) Hin).
Defined.

(** With five adapters and a third call that raises, three payloads are
    sent and two responses printed. *)
Lemma warm_up_stops_at_first_failure_witness :
  warm_up third_raises "lorax/mistral-adapters" 5
  = (payload_adapter "lorax/mistral-adapters" <$> seq 1 3, [true; true], false) /\
  exists k, 1 <= k <= 5 /\ third_raises k = None /\
    (forall i, 1 <= i < k -> is_Some (third_raises i)) /\
    payload_adapter "lorax/mistral-adapters" <$> seq 1 3
    = payload_adapter "lorax/mistral-adapters" <$> seq 1 k /\
    length [true; true] = k - 1.
Proof.
  assert (warm_up third_raises "lorax/mistral-adapters" 5
          = (payload_adapter "lorax/mistral-adapters" <$> seq 1 3, [true; true], false))
    as Hwarm by reflexivity.
  split; [exact Hwarm|].
  exact (proj2 (warm_up_stops_at_first_failure third_raises "lorax/mistral-adapters" 5
                  _ _ _ Hwarm) eq_refl).
Defined.

(** Two adapters in the benchmark, two uploaded and warmed up. *)
Lemma benchmark_adapters_prepared_witness :
  configure 3 2 = Some (3%Z, [1%Z; 1%Z]) /\
  run Qminus false multi_schedule (spawn 2 3 [1%Z; 1%Z])
  = Some (multi_claims, multi_final) /\
  warm_up all_respond "lorax/mistral-adapters" 2
  = (payload_adapter "lorax/mistral-adapters" <$> seq 1 2, [true; true], true) /\
  Forall (fun adapter_id =>
            payload_adapter "lorax/mistral-adapters" adapter_id
              ∈ payload_adapter "lorax/mistral-adapters" <$> seq 1 2 /\
            forall root file, (root, file) ∈ walked_files adapter_folder ->
              upload_adapters join_slash adapter_folder "bucket"
                "lorax/mistral-adapters" 2 ∅
                !! ("bucket",
                    adapter_path "lorax/mistral-adapters" adapter_id +:+ "/"
                      +:+ relpath root file)
              = Some (join_slash (root ++ [file]))) multi_claims.
Proof.
  assert (configure 3 2 = Some (3%Z, [1%Z; 1%Z])) as Hcfg by reflexivity.
  assert (run Qminus false multi_schedule (spawn 2 3 [1%Z; 1%Z])
          = Some (multi_claims, multi_final)) as Hrun by evaluate.
  assert (warm_up all_respond "lorax/mistral-adapters" 2
          = (payload_adapter "lorax/mistral-adapters" <$> seq 1 2, [true; true], true))
    as Hwarm by reflexivity.
  split; [exact Hcfg|]. split; [exact Hrun|]. split; [exact Hwarm|].
  exact (benchmark_adapters_prepared Qminus join_slash false 3 2 2 3 [1%Z; 1%Z]
           multi_schedule multi_claims multi_final all_respond
           "lorax/mistral-adapters" 2 _ _ adapter_folder "bucket" ∅
           ltac:(lia) ltac:(vm_compute; lia) Hcfg Hrun Hwarm adapter_folder_names_ok).
Defined.
